(** * Vesting accounts of package auth: a shallow embedding and its properties

    The development follows the source of [package auth]: the account
    records, the continuous vesting schedule of [GetVestedCoins] and
    [GetVestingCoins], the query [SpendableCoins], and the accounting of
    [TrackDelegation] and [TrackUndelegation].

    - Panics of the Go code are results: a function that may panic returns
      a [result], and a method with a pointer receiver runs in the monad [M],
      whose outcome carries the account at the return or at the panic.
    - The types of the SDK that the package imports ([sdk.Int], [sdk.Dec],
      [sdk.Coin], [sdk.Coins]) are in the module [sdk].
    - The statements for the claims C1 to C10 are in the part on the
      properties of the vesting account and, at concrete inputs, in the last
      part. *)

From Stdlib Require Import ZArith List String Ascii Bool Lia.
From Stdlib Require Import OrderedTypeEx.
Import ListNotations.
Local Open Scope Z_scope.

(** ** Panics and results

    The Go code signals arithmetic failures with [panic].  A function that
    may panic returns a [result]. *)

Inductive PanicKind : Type :=
| NegativeResult        (* coin subtraction dropped below zero *)
| NegativeCoinAmount    (* a coin was built with a negative amount *)
| DivisionByZero.       (* decimal quotient by zero *)

Inductive result (A : Type) : Type :=
| Ok (a : A)
| Err (e : PanicKind).
Arguments Ok {A} a.
Arguments Err {A} e.

Definition bindR {A B : Type} (r : result A) (k : A -> result B) : result B :=
  match r with
  | Ok a => k a
  | Err e => Err e
  end.

Declare Scope result_scope.
Delimit Scope result_scope with result.
Notation "'try' x <- r ; k" := (bindR r (fun x => k))
  (at level 10, x name, r at level 100, k at level 200) : result_scope.
Local Open Scope result_scope.

(** [for _, a := range l { s = body(s, a) }] where the body may panic. *)
Fixpoint rangeR {A S : Type} (body : S -> A -> result S) (l : list A) (s : S)
  : result S :=
  match l with
  | [] => Ok s
  | a :: rest => try s' <- body s a ; rangeR body rest s'
  end.

(** ** Order on denominations: Go's [strings.Compare] *)

Definition dlt (a b : string) : Prop := String.compare a b = Lt.

(** ** 64-bit integers: [time.Time.Unix] and its differences *)

Definition wrap64 (z : Z) : Z := (z + 2 ^ 63) mod 2 ^ 64 - 2 ^ 63.

Definition int64 (z : Z) : Prop := - 2 ^ 63 <= z < 2 ^ 63.

Definition int64b (z : Z) : bool := (- 2 ^ 63 <=? z) && (z <? 2 ^ 63).

Definition sub64 (a b : Z) : Z := wrap64 (a - b).

(** A [time.Time], seen through the only method the package uses on it. *)
Definition Time : Type := Z.
Definition Unix (t : Time) : Z := t.

Module sdk.

(** The package [types] of the SDK is not among the sources at hand: [Int],
    [Dec], [Coin] and [Coins] follow the contracts the spec gives for them. *)

(** *** Int *)

(** Modelled from the spec: the type [sdk.Int] is missing; amounts are big
    integers with no silent overflow (section 3.1), taken as [Z]. *)
Definition Int : Type := Z.

(** Modelled from the spec: [sdk.ZeroInt] is missing; the integer 0. *)
Definition ZeroInt : Int := 0.

(** Modelled from the spec: [sdk.MinInt] is missing; [min_int] is the plain
    big-integer operation (section 4.1). *)
Definition MinInt (i1 i2 : Int) : Int := Z.min i1 i2.

(** Modelled from the spec: [sdk.MaxInt] is missing; [max_int] is the plain
    big-integer operation (section 4.1). *)
Definition MaxInt (i1 i2 : Int) : Int := Z.max i1 i2.

(** *** Dec *)

(** Modelled from the spec: the type [sdk.Dec] is missing; section 4.3 has
    the vesting scalar as a fixed-precision decimal with 18 digits.  A [Dec]
    is its integer mantissa, the value times [10^18]. *)
Definition Dec : Type := Z.

(** Modelled from the spec: the precision of [sdk.Dec] is missing; 18
    digits (section 4.3). *)
Definition Precision : Z := 18.
Definition precisionReuse : Z := 10 ^ Precision.
Definition fivePrecision : Z := precisionReuse / 2.

(** Modelled from the spec: the rounding of [sdk.Dec] is missing; section
    4.3 rounds to the nearest integer and names two rules for ties,
    banker's and half away from zero.  The rule is left open: [tie_up],
    given the truncated quotient of a magnitude exactly half way, says
    whether the magnitude is rounded up. *)
Class Rounding : Type := tie_up : Z -> bool.

Section DecOps.
Context {R : Rounding}.

(** Modelled from the spec: rounding to the nearest of the magnitude
    [d >= 0] of a mantissa, from 36 digits to 18 (section 4.3). *)
Definition chopMagnitude (d : Z) : Z :=
  let quo := d / precisionReuse in
  let rem := d mod precisionReuse in
  if rem =? 0 then quo
  else if rem <? fivePrecision then quo
  else if fivePrecision <? rem then quo + 1
  else if tie_up quo then quo + 1 else quo.

(** Modelled from the spec: the rounding is symmetric around zero. *)
Definition chopPrecisionAndRound (d : Z) : Z :=
  if d <? 0 then - chopMagnitude (- d) else chopMagnitude d.

(** Modelled from the spec: [sdk.NewDec] is missing; the decimal of a 64-bit
    integer. *)
Definition NewDec (i : Z) : Dec := i * precisionReuse.

(** Modelled from the spec: [sdk.NewDecFromInt] is missing; the decimal of
    an amount. *)
Definition NewDecFromInt (i : Int) : Dec := i * precisionReuse.

(** Modelled from the spec: [Dec.Mul] is missing; the product, rounded to
    18 digits (section 4.3 and the design note on rounding). *)
Definition Mul (d d2 : Dec) : Dec := chopPrecisionAndRound (d * d2).

(** Modelled from the spec: [Dec.Quo] is missing; the quotient as a
    fixed-precision decimal (section 4.3), computed with 18 more digits,
    truncated, and rounded to 18 digits; a zero divisor panics. *)
Definition Quo (d d2 : Dec) : result Dec :=
  if d2 =? 0 then Err DivisionByZero
  else
    let mul := d * precisionReuse * precisionReuse in
    Ok (chopPrecisionAndRound (Z.quot mul d2)).

(** Modelled from the spec: [Dec.RoundInt] is missing; the decimal rounded
    to the nearest integer (section 4.3). *)
Definition RoundInt (d : Dec) : Int := chopPrecisionAndRound d.

(** The amount vested of [amount] under the scalar [s]: the body of the
    loop of [GetVestedCoins]. *)
Definition vestedAmt (s : Dec) (amount : Int) : Int :=
  RoundInt (Mul (NewDecFromInt amount) s).

(** The vesting scalar [x / y], for [y] other than zero. *)
Definition scalar (x y : Z) : Dec :=
  chopPrecisionAndRound
    (Z.quot (x * precisionReuse * precisionReuse * precisionReuse)
            (y * precisionReuse)).

End DecOps.

(** *** Coin and Coins *)

(** Modelled from the spec: the type [sdk.Coin] is missing; a denomination
    and an integer amount (section 3.1). *)
Record Coin : Type := mkCoin { Denom : string; Amount : Int }.

(** Modelled from the spec: the type [sdk.Coins] is missing; a sequence of
    coins, in normal form when it is sorted by denomination without
    duplicates and every amount is positive (section 3.1, [IsValid]
    below). *)
Definition Coins : Type := list Coin.

(** Modelled from the spec: [sdk.NewCoin] is missing; the amount of a coin
    is never negative (section 3.1), and the constructor panics on a
    negative amount. *)
Definition NewCoin (denom : string) (amount : Int) : result Coin :=
  if amount <? ZeroInt then Err NegativeCoinAmount
  else Ok {| Denom := denom; Amount := amount |}.

(** Modelled from the spec: [Coin.IsZero] is missing; [is_zero] of section
    4.1. *)
Definition IsZero (coin : Coin) : bool := Amount coin =? 0.

Definition IsPositive (coin : Coin) : bool := 0 <? Amount coin.

(** Modelled from the spec: [Coins.AmountOf] is missing; the amount of the
    denomination, 0 if absent (section 4.1). *)
Fixpoint AmountOf (coins : Coins) (denom : string) : Int :=
  match coins with
  | [] => ZeroInt
  | coin :: rest =>
      if String.eqb (Denom coin) denom then Amount coin
      else AmountOf rest denom
  end.

Definition removeZeroCoins (coins : Coins) : Coins :=
  filter (fun coin => negb (IsZero coin)) coins.

(** [sum = append(sum, coin)] unless the coin is zero. *)
Definition appendNonZero (coin : Coin) (sum : Coins) : Coins :=
  if IsZero coin then sum else coin :: sum.

(** Modelled from the spec: the sum of two sequences of coins is missing;
    it merges by denomination, sums the amounts, strips zeros, and is
    sorted when its arguments are (section 4.1). *)
Fixpoint safePlus (coins coinsB : Coins) {struct coins} : Coins :=
  match coins with
  | [] => removeZeroCoins coinsB
  | coinA :: restA =>
      (fix scanB (coinsB : Coins) {struct coinsB} : Coins :=
         match coinsB with
         | [] => removeZeroCoins (coinA :: restA)
         | coinB :: restB =>
             match String.compare (Denom coinA) (Denom coinB) with
             | Lt => appendNonZero coinA (safePlus restA (coinB :: restB))
             | Eq => appendNonZero
                       {| Denom := Denom coinA;
                          Amount := Amount coinA + Amount coinB |}
                       (safePlus restA restB)
             | Gt => appendNonZero coinB (scanB restB)
             end
         end) coinsB
  end.

(** Modelled from the spec: [Coins.Plus] is missing; [plus] of section
    4.1. *)
Definition Plus (coins coinsB : Coins) : Coins := safePlus coins coinsB.

Definition negative (coins : Coins) : Coins :=
  map (fun coin => {| Denom := Denom coin; Amount := - Amount coin |}) coins.

Definition IsNotNegative (coins : Coins) : bool :=
  forallb (fun coin => negb (Amount coin <? 0)) coins.

(** Modelled from the spec: [Coins.Minus] is missing; [minus] of section
    4.1 subtracts denomination-wise and fails with [NegativeResult] if any
    resulting amount would be below zero.  A denomination absent from the
    minuend has the amount 0 there: subtracting nothing of it changes
    nothing, and subtracting a positive amount of it fails, as section 4.6
    has it for an undelegation that [delegatedVesting] does not cover. *)
Definition Minus (coins coinsB : Coins) : result Coins :=
  let diff := safePlus coins (negative coinsB) in
  if IsNotNegative diff then Ok diff else Err NegativeResult.

(** Modelled from the spec: the normal form of section 3.1, denominations
    strictly ascending and amounts positive. *)
Fixpoint validFrom (lowDenom : string) (coins : Coins) : bool :=
  match coins with
  | [] => true
  | coin :: rest =>
      match String.compare lowDenom (Denom coin) with
      | Lt => IsPositive coin && validFrom (Denom coin) rest
      | _ => false
      end
  end.

Definition IsValid (coins : Coins) : bool :=
  match coins with
  | [] => true
  | coin :: rest => IsPositive coin && validFrom (Denom coin) rest
  end.

(** Denominations strictly ascending, whatever the amounts: the order the
    merge of [safePlus] relies on. *)
Definition above (d : string) (coins : Coins) : Prop :=
  Forall (fun coin => dlt d (Denom coin)) coins.

Inductive ascending : Coins -> Prop :=
| ascending_nil : ascending []
| ascending_cons coin rest :
    above (Denom coin) rest -> ascending rest -> ascending (coin :: rest).

(** No zero amount, and only positive amounts. *)
Definition nonzero (l : Coins) : Prop := Forall (fun c => Amount c <> 0) l.

Definition positive (l : Coins) : Prop := Forall (fun c => 0 < Amount c) l.

End sdk.

(** ** Accounts *)

Record BaseAccount : Type := mkBaseAccount {
  Address : list Byte.byte;
  Coins : sdk.Coins;
  PubKey : option (list Byte.byte);
  AccountNumber : Z;
  Sequence : Z
}.

(** [BaseVestingAccount] embeds [BaseAccount]; the embedded struct is the
    field [BaseAccount_]. *)
Record BaseVestingAccount : Type := mkBaseVestingAccount {
  BaseAccount_ : BaseAccount;
  originalVesting : sdk.Coins;   (* coins in account upon initialization *)
  delegatedFree : sdk.Coins;     (* coins that are vested and delegated *)
  endTime : Time                 (* when the coins become unlocked *)
}.

Record ContinuousVestingAccount : Type := mkContinuousVestingAccount {
  BaseVestingAccount_ : BaseVestingAccount;
  delegatedVesting : sdk.Coins;  (* coins that vesting and delegated *)
  startTime : Time               (* when the coins start to vest *)
}.

(** The struct is declared, and no vesting method is defined on it: the
    assertion that it implements [VestingAccount] is commented out in the
    source ("uncomment once implemented"). *)
Record DelayedVestingAccount : Type := mkDelayedVestingAccount {
  DelayedBaseVestingAccount_ : BaseVestingAccount
}.

(** *** BaseAccount methods *)

Definition GetAddress (acc : BaseAccount) : list Byte.byte := Address acc.

(** [SetAddress] returns an error, and leaves the account as it is, when an
    address is already set. *)
Definition SetAddress (acc : BaseAccount) (addr : list Byte.byte)
  : option BaseAccount :=
  if negb (List.length (Address acc) =? 0)%nat then None
  else Some (mkBaseAccount addr (Coins acc) (PubKey acc)
               (AccountNumber acc) (Sequence acc)).

Definition GetCoins (acc : BaseAccount) : sdk.Coins := Coins acc.

Definition SetCoins (acc : BaseAccount) (coins : sdk.Coins) : BaseAccount :=
  mkBaseAccount (Address acc) coins (PubKey acc)
    (AccountNumber acc) (Sequence acc).

(** *** Field access and assignment through the embedded structs *)

Definition cvaBase (cva : ContinuousVestingAccount) : BaseAccount :=
  BaseAccount_ (BaseVestingAccount_ cva).

Definition cvaGetCoins (cva : ContinuousVestingAccount) : sdk.Coins :=
  GetCoins (cvaBase cva).

Definition cvaOriginalVesting (cva : ContinuousVestingAccount) : sdk.Coins :=
  originalVesting (BaseVestingAccount_ cva).

Definition cvaDelegatedFree (cva : ContinuousVestingAccount) : sdk.Coins :=
  delegatedFree (BaseVestingAccount_ cva).

Definition cvaEndTime (cva : ContinuousVestingAccount) : Time :=
  endTime (BaseVestingAccount_ cva).

(** [cva.Coins = coins] *)
Definition assignCoins (cva : ContinuousVestingAccount) (coins : sdk.Coins)
  : ContinuousVestingAccount :=
  let bva := BaseVestingAccount_ cva in
  mkContinuousVestingAccount
    (mkBaseVestingAccount (SetCoins (BaseAccount_ bva) coins)
       (originalVesting bva) (delegatedFree bva) (endTime bva))
    (delegatedVesting cva) (startTime cva).

(** [cva.delegatedFree = coins] *)
Definition assignDelegatedFree (cva : ContinuousVestingAccount)
  (coins : sdk.Coins) : ContinuousVestingAccount :=
  let bva := BaseVestingAccount_ cva in
  mkContinuousVestingAccount
    (mkBaseVestingAccount (BaseAccount_ bva)
       (originalVesting bva) coins (endTime bva))
    (delegatedVesting cva) (startTime cva).

(** [cva.delegatedVesting = coins] *)
Definition assignDelegatedVesting (cva : ContinuousVestingAccount)
  (coins : sdk.Coins) : ContinuousVestingAccount :=
  mkContinuousVestingAccount (BaseVestingAccount_ cva) coins (startTime cva).

Definition NewContinuousVestingAccount (addr : list Byte.byte)
  (origCoins : sdk.Coins) (startTime endTime : Time)
  : ContinuousVestingAccount :=
  let baseAcc :=
    {| Address := addr; Coins := origCoins; PubKey := None;
       AccountNumber := 0; Sequence := 0 |} in
  let baseVestingAcc :=
    {| BaseAccount_ := baseAcc; originalVesting := origCoins;
       delegatedFree := []; endTime := endTime |} in
  {| BaseVestingAccount_ := baseVestingAcc; delegatedVesting := [];
     startTime := startTime |}.

(** ** Methods with a pointer receiver

    [TrackDelegation] and [TrackUndelegation] assign to the fields of the
    account they are called on, and a panic in the middle leaves the
    assignments already made.  A computation takes the account's state to an
    outcome that carries the state at the return or at the panic. *)

Section Receiver.
Variable S : Type.

Inductive Outcome (A : Type) : Type :=
| Done (a : A) (s : S)
| Panic (e : PanicKind) (s : S).

Definition M (A : Type) : Type := S -> Outcome A.

Definition ret {A : Type} (a : A) : M A := fun s => Done A a s.

Definition bind {A B : Type} (m : M A) (k : A -> M B) : M B :=
  fun s =>
    match m s with
    | Done _ a s' => k a s'
    | Panic _ e s' => Panic B e s'
    end.

Definition gets {A : Type} (f : S -> A) : M A := fun s => Done A (f s) s.

Definition modify (f : S -> S) : M unit := fun s => Done unit tt (f s).

Definition liftR {A : Type} (r : result A) : M A :=
  fun s =>
    match r with
    | Ok a => Done A a s
    | Err e => Panic A e s
    end.

(** A call of a method with a value receiver: the method works on a copy
    of the struct. *)
Definition byValue {A : Type} (f : S -> result A) : M A :=
  fun s => liftR (f s) s.

Fixpoint rangeM {A : Type} (body : A -> M unit) (l : list A) : M unit :=
  match l with
  | [] => ret tt
  | a :: rest => bind (body a) (fun _ => rangeM body rest)
  end.

Definition stateOf {A : Type} (o : Outcome A) : S :=
  match o with
  | Done _ _ s => s
  | Panic _ _ s => s
  end.
End Receiver.

Arguments Done {S A} a s.
Arguments Panic {S A} e s.
Arguments ret {S A} a.
Arguments bind {S A B} m k.
Arguments gets {S A} f.
Arguments modify {S} f.
Arguments liftR {S A} r.
Arguments byValue {S A} f.
Arguments rangeM {S A} body l.
Arguments stateOf {S A} o.

Declare Scope receiver_scope.
Delimit Scope receiver_scope with receiver.
Notation "x <~ m ;; k" := (bind m (fun x => k))
  (at level 61, m at next level, right associativity) : receiver_scope.
Notation "m ;;; k" := (bind m (fun _ => k))
  (at level 61, right associativity) : receiver_scope.

(** ** Continuous vesting *)

Section Vesting.
Context {R : sdk.Rounding}.

Definition GetVestedCoins (cva : ContinuousVestingAccount) (blockTime : Time)
  : result sdk.Coins :=
  let vestedCoins : sdk.Coins := [] in
  if Unix blockTime <=? Unix (startTime cva) then Ok vestedCoins
  else
    let x := sub64 (Unix blockTime) (Unix (startTime cva)) in
    let y := sub64 (Unix (cvaEndTime cva)) (Unix (startTime cva)) in
    try s <- sdk.Quo (sdk.NewDec x) (sdk.NewDec y) ;
    rangeR
      (fun vestedCoins ovc =>
         let vestedAmt :=
           sdk.RoundInt (sdk.Mul (sdk.NewDecFromInt (sdk.Amount ovc)) s) in
         try vestedCoin <- sdk.NewCoin (sdk.Denom ovc) vestedAmt ;
         Ok (sdk.Plus vestedCoins [vestedCoin]))
      (cvaOriginalVesting cva) vestedCoins.

Definition GetVestingCoins (cva : ContinuousVestingAccount)
  (blockTime : Time) : result sdk.Coins :=
  try vested <- GetVestedCoins cva blockTime ;
  sdk.Minus (cvaOriginalVesting cva) vested.

Definition SpendableCoins (cva : ContinuousVestingAccount) (blockTime : Time)
  : result sdk.Coins :=
  let spendableCoins : sdk.Coins := [] in
  let bc := cvaGetCoins cva in
  try v <- GetVestingCoins cva blockTime ;
  rangeR
    (fun spendableCoins coin =>
       let baseAmt := sdk.Amount coin in
       let delVestingAmt :=
         sdk.AmountOf (delegatedVesting cva) (sdk.Denom coin) in
       let vestingAmt := sdk.AmountOf v (sdk.Denom coin) in
       (* compute min((BC + DV) - V, BC) per the specification *)
       let min := sdk.MinInt (baseAmt + delVestingAmt - vestingAmt) baseAmt in
       try spendableCoin <- sdk.NewCoin (sdk.Denom coin) min ;
       if negb (sdk.IsZero spendableCoin)
       then Ok (sdk.Plus spendableCoins [spendableCoin])
       else Ok spendableCoins)
    bc spendableCoins.

Local Open Scope receiver_scope.

(** The body of the loop of [TrackDelegation], for one coin of [amount];
    [bc] and [v] were read before the loop. *)
Definition trackDelegationCoin (bc v : sdk.Coins) (coin : sdk.Coin)
  : M ContinuousVestingAccount unit :=
  if (sdk.Amount coin =? 0)
     || (sdk.AmountOf bc (sdk.Denom coin) <? sdk.Amount coin)
  then ret tt
  else
    let vestingAmt := sdk.AmountOf v (sdk.Denom coin) in
    delVestingAmt <~
      gets (fun cva => sdk.AmountOf (delegatedVesting cva) (sdk.Denom coin)) ;;
    let x := sdk.MinInt
               (sdk.MaxInt (vestingAmt - delVestingAmt) sdk.ZeroInt)
               (sdk.Amount coin) in
    let y := sdk.Amount coin - x in
    (if negb (x =? 0) then
       xCoin <~ liftR (sdk.NewCoin (sdk.Denom coin) x) ;;
       modify (fun cva =>
         assignDelegatedVesting cva (sdk.Plus (delegatedVesting cva) [xCoin]))
     else ret tt) ;;;
    (if negb (y =? 0) then
       yCoin <~ liftR (sdk.NewCoin (sdk.Denom coin) y) ;;
       modify (fun cva =>
         assignDelegatedFree cva (sdk.Plus (cvaDelegatedFree cva) [yCoin]))
     else ret tt) ;;;
    newCoins <~ liftR (sdk.Minus bc [coin]) ;;
    modify (fun cva => assignCoins cva newCoins).

Definition TrackDelegation (blockTime : Time) (amount : sdk.Coins)
  : M ContinuousVestingAccount unit :=
  bc <~ gets cvaGetCoins ;;
  v <~ byValue (fun cva => GetVestingCoins cva blockTime) ;;
  rangeM (trackDelegationCoin bc v) amount.

(** The body of the loop of [TrackUndelegation]. *)
Definition trackUndelegationCoin (bc : sdk.Coins) (coin : sdk.Coin)
  : M ContinuousVestingAccount unit :=
  if sdk.Amount coin =? 0 then ret tt
  else
    delegatedFree <~
      gets (fun cva => sdk.AmountOf (cvaDelegatedFree cva) (sdk.Denom coin)) ;;
    let x := sdk.MinInt delegatedFree (sdk.Amount coin) in
    let y := sdk.Amount coin - x in
    (if negb (x =? 0) then
       xCoin <~ liftR (sdk.NewCoin (sdk.Denom coin) x) ;;
       df <~ gets cvaDelegatedFree ;;
       newFree <~ liftR (sdk.Minus df [xCoin]) ;;
       modify (fun cva => assignDelegatedFree cva newFree)
     else ret tt) ;;;
    (if negb (y =? 0) then
       yCoin <~ liftR (sdk.NewCoin (sdk.Denom coin) y) ;;
       dv <~ gets delegatedVesting ;;
       newVesting <~ liftR (sdk.Minus dv [yCoin]) ;;
       modify (fun cva => assignDelegatedVesting cva newVesting)
     else ret tt) ;;;
    modify (fun cva => assignCoins cva (sdk.Plus bc [coin])).

Definition TrackUndelegation (amount : sdk.Coins)
  : M ContinuousVestingAccount unit :=
  bc <~ gets cvaGetCoins ;;
  rangeM (trackUndelegationCoin bc) amount.

(** A call of the tracking interface, and a sequence of calls on one
    account; a panic ends the sequence. *)
Inductive TrackCall : Type :=
| Delegate (blockTime : Time) (amount : sdk.Coins)
| Undelegate (amount : sdk.Coins).

Definition trackCall (c : TrackCall) : M ContinuousVestingAccount unit :=
  match c with
  | Delegate blockTime amount => TrackDelegation blockTime amount
  | Undelegate amount => TrackUndelegation amount
  end.

Definition trackCalls (cs : list TrackCall)
  : M ContinuousVestingAccount unit :=
  rangeM trackCall cs.

(** The conserved quantity of section 4.7. *)
Definition Q (cva : ContinuousVestingAccount) (d : string) : Z :=
  sdk.AmountOf (cvaGetCoins cva) d
  + sdk.AmountOf (delegatedVesting cva) d
  + sdk.AmountOf (cvaDelegatedFree cva) d.
End Vesting.

(** The fields that no method of the vesting account assigns. *)
Definition fixedFields (a b : ContinuousVestingAccount) : Prop :=
  Address (cvaBase a) = Address (cvaBase b)
  /\ PubKey (cvaBase a) = PubKey (cvaBase b)
  /\ AccountNumber (cvaBase a) = AccountNumber (cvaBase b)
  /\ Sequence (cvaBase a) = Sequence (cvaBase b)
  /\ cvaOriginalVesting a = cvaOriginalVesting b
  /\ cvaEndTime a = cvaEndTime b
  /\ startTime a = startTime b.

(** The three ledgers of the account are in normal form. *)
Definition ledgersValid (cva : ContinuousVestingAccount) : Prop :=
  sdk.IsValid (cvaGetCoins cva) = true
  /\ sdk.IsValid (delegatedVesting cva) = true
  /\ sdk.IsValid (cvaDelegatedFree cva) = true.

(** An amount [delta] of the denomination [denom], and nothing of the
    others. *)
Definition only (denom : string) (delta : Z) (d : string) : Z :=
  if String.eqb denom d then delta else 0.

(** The coin of [amount] at which [TrackUndelegation] asks more of
    [delegatedVesting] than it holds. *)
Definition overdrawn (cva : ContinuousVestingAccount) (coin : sdk.Coin) : Prop :=
  sdk.AmountOf (delegatedVesting cva) (sdk.Denom coin)
  < sdk.Amount coin
    - Z.min (sdk.AmountOf (cvaDelegatedFree cva) (sdk.Denom coin)) (sdk.Amount coin).

(** The coin of the last iteration over a non-empty [amount]. *)
Definition lastCoin (amount : sdk.Coins) : sdk.Coin :=
  last amount {| sdk.Denom := EmptyString; sdk.Amount := 0 |}.

(** What the loop of [SpendableCoins] computes for the denomination [d]:
    [min((BC + DV) - V, BC)] for a denomination of the base coins. *)
Definition spendableAmount (bc dv v : sdk.Coins) (d : string) : Z :=
  if sdk.AmountOf bc d =? 0 then 0
  else Z.min (sdk.AmountOf bc d + sdk.AmountOf dv d - sdk.AmountOf v d)
             (sdk.AmountOf bc d).

(** The differences of Unix seconds that [GetVestedCoins] takes at
    [blockTime] fit in 64 bits, as they do for all dates of the calendar. *)
Definition timesFit (cva : ContinuousVestingAccount) (blockTime : Time) : Prop :=
  int64 (Unix blockTime - Unix (startTime cva))
  /\ int64 (Unix (cvaEndTime cva) - Unix (startTime cva)).

(** ** The other methods of BaseAccount

    The setters other than [SetAddress] return a nil error always: they are
    functions to the account after the call. *)

(** [&BaseAccount{}]: every field has its zero value. *)
Definition ProtoBaseAccount : BaseAccount :=
  {| Address := []; Coins := []; PubKey := None;
     AccountNumber := 0; Sequence := 0 |}.

Definition NewBaseAccountWithAddress (addr : list Byte.byte) : BaseAccount :=
  {| Address := addr; Coins := []; PubKey := None;
     AccountNumber := 0; Sequence := 0 |}.

Definition GetPubKey (acc : BaseAccount) : option (list Byte.byte) :=
  PubKey acc.

Definition SetPubKey (acc : BaseAccount) (pubKey : option (list Byte.byte))
  : BaseAccount :=
  mkBaseAccount (Address acc) (Coins acc) pubKey
    (AccountNumber acc) (Sequence acc).

Definition GetAccountNumber (acc : BaseAccount) : Z := AccountNumber acc.

Definition SetAccountNumber (acc : BaseAccount) (accNumber : Z) : BaseAccount :=
  mkBaseAccount (Address acc) (Coins acc) (PubKey acc)
    accNumber (Sequence acc).

Definition GetSequence (acc : BaseAccount) : Z := Sequence acc.

Definition SetSequence (acc : BaseAccount) (seq : Z) : BaseAccount :=
  mkBaseAccount (Address acc) (Coins acc) (PubKey acc)
    (AccountNumber acc) seq.

(** A call of a setter of [BaseAccount]. *)
Inductive SetterCall : Type :=
| CallSetAddress (addr : list Byte.byte)
| CallSetPubKey (pubKey : option (list Byte.byte))
| CallSetCoins (coins : sdk.Coins)
| CallSetAccountNumber (accNumber : Z)
| CallSetSequence (seq : Z).

(** The account after the call; a [SetAddress] that returns its error
    leaves the account as it is. *)
Definition setterCall (acc : BaseAccount) (c : SetterCall) : BaseAccount :=
  match c with
  | CallSetAddress addr =>
      match SetAddress acc addr with
      | Some acc' => acc'
      | None => acc
      end
  | CallSetPubKey pubKey => SetPubKey acc pubKey
  | CallSetCoins coins => SetCoins acc coins
  | CallSetAccountNumber accNumber => SetAccountNumber acc accNumber
  | CallSetSequence seq => SetSequence acc seq
  end.

Definition setterCalls (acc : BaseAccount) (cs : list SetterCall)
  : BaseAccount :=
  fold_left setterCall cs acc.

(** ** The end blocker of the consensus parameters *)

Module consensus.

(** The keys of the parameters, by the names the source gives them; their
    declarations are not among the sources at hand. *)
Inductive Key : Type :=
| blockMaxBytesKey
| blockMaxTxsKey
| blockMaxGasKey
| txMaxBytesKey
| txMaxGasKey
| blockPartSizeBytesKey.

(** [params.Space] at the context of the call is not among the sources at
    hand: it is taken by what its two methods answer.  [Modified] tells
    whether the key was set in the block; [Get] decodes the value of the key
    into the integer its pointer argument points to, and [None] stands for
    its panic. *)
Record Space : Type := mkSpace {
  Modified : Key -> bool;
  Get : Key -> option Z
}.

Record BlockSize : Type := mkBlockSize {
  MaxBytes : Z;
  MaxTxs : Z;
  MaxGas : Z
}.

Record TxSize : Type := mkTxSize {
  TxMaxBytes : Z;   (* TxSize.MaxBytes *)
  TxMaxGas : Z      (* TxSize.MaxGas *)
}.

Record BlockGossip : Type := mkBlockGossip {
  BlockPartSizeBytes : Z
}.

Record ConsensusParams : Type := mkConsensusParams {
  BlockSize_ : BlockSize;
  TxSize_ : TxSize;
  BlockGossip_ : BlockGossip
}.

(** [if space.Modified(ctx, key) { space.Get(ctx, key, &field) }] on a field
    that holds its zero value. *)
Definition getIfModified (space : Space) (key : Key) : option Z :=
  if Modified space key then Get space key else Some 0.

(** The next statement runs when the one before did not panic. *)
Definition andThen {A B : Type} (o : option A) (k : A -> option B)
  : option B :=
  match o with
  | Some a => k a
  | None => None
  end.

Definition EndBlock (space : Space) : option ConsensusParams :=
  andThen (getIfModified space blockMaxBytesKey) (fun blockMaxBytes =>
  andThen (getIfModified space blockMaxTxsKey) (fun blockMaxTxs =>
  andThen (getIfModified space blockMaxGasKey) (fun blockMaxGas =>
  andThen (getIfModified space txMaxBytesKey) (fun txMaxBytes =>
  andThen (getIfModified space txMaxGasKey) (fun txMaxGas =>
  andThen (getIfModified space blockPartSizeBytesKey)
    (fun blockPartSizeBytes =>
  Some {| BlockSize_ := {| MaxBytes := blockMaxBytes; MaxTxs := blockMaxTxs;
                           MaxGas := blockMaxGas |};
          TxSize_ := {| TxMaxBytes := txMaxBytes; TxMaxGas := txMaxGas |};
          BlockGossip_ :=
            {| BlockPartSizeBytes := blockPartSizeBytes |} |})))))).

(** The updates with every field at its zero value. *)
Definition zeroParams : ConsensusParams :=
  {| BlockSize_ := {| MaxBytes := 0; MaxTxs := 0; MaxGas := 0 |};
     TxSize_ := {| TxMaxBytes := 0; TxMaxGas := 0 |};
     BlockGossip_ := {| BlockPartSizeBytes := 0 |} |}.

(** The field of the updates that the key is read into. *)
Definition field (updates : ConsensusParams) (key : Key) : Z :=
  match key with
  | blockMaxBytesKey => MaxBytes (BlockSize_ updates)
  | blockMaxTxsKey => MaxTxs (BlockSize_ updates)
  | blockMaxGasKey => MaxGas (BlockSize_ updates)
  | txMaxBytesKey => TxMaxBytes (TxSize_ updates)
  | txMaxGasKey => TxMaxGas (TxSize_ updates)
  | blockPartSizeBytesKey => BlockPartSizeBytes (BlockGossip_ updates)
  end.

End consensus.

(** ** Statements about tracking calls *)

(** The vesting coins [v] are covered in every denomination of the base
    coins: none has more vesting than base coins plus delegated vesting. *)
Definition coveredVesting (cva : ContinuousVestingAccount) (v : sdk.Coins)
  : Prop :=
  forall d, 0 < sdk.AmountOf (cvaGetCoins cva) d ->
    sdk.AmountOf v d
    <= sdk.AmountOf (cvaGetCoins cva) d + sdk.AmountOf (delegatedVesting cva) d.

(** A computation keeps the fixed fields, whether it returns or panics. *)
Definition keepsFixed {A : Type} (m : M ContinuousVestingAccount A) : Prop :=
  forall cva, fixedFields cva (stateOf (m cva)).


(** The vesting part [X] of a delegation of the amount [dAmt] of a
    denomination with [vAmt] vesting and [dvAmt] delegated vesting. *)
Definition vestingPart (vAmt dvAmt dAmt : Z) : Z :=
  Z.min (Z.max (vAmt - dvAmt) 0) dAmt.

(** The part [X] of an undelegation of the amount [rAmt] that comes out of
    [dfAmt] delegated free. *)
Definition freePart (dfAmt rAmt : Z) : Z := Z.min dfAmt rAmt.

(** ** Concrete accounts

    Ties are rounded to even in the concrete runs. *)

Definition bankers : sdk.Rounding := Z.odd.

Definition coin (denom : string) (amount : Z) : sdk.Coin :=
  {| sdk.Denom := denom; sdk.Amount := amount |}.

Definition atom (amount : Z) : sdk.Coin := coin "atom" amount.

Module Scenario.

(** 100 atom vesting from 0 to 100 (seed scenarios 1 and 5 of the spec). *)
Definition fresh : ContinuousVestingAccount :=
  NewContinuousVestingAccount [] [atom 100] 0 100.

(** Two denominations vesting from 0 to 100. *)
Definition twoDenoms : ContinuousVestingAccount :=
  NewContinuousVestingAccount [] [coin "a" 10; coin "b" 10] 0 100.

(** [fresh] after the delegation of 12 atom at block time 98, when 2 atom
    are still vesting: 2 atom are delegated vesting and 10 atom delegated
    free. *)
Definition partlyDelegated : ContinuousVestingAccount :=
  assignCoins
    (assignDelegatedFree (assignDelegatedVesting fresh [atom 2]) [atom 10])
    [atom 88].

(** [fresh] after the delegation of 100 atom at block time 100 and the
    undelegation of 50 atom. *)
Definition halfBack : ContinuousVestingAccount :=
  assignCoins (assignDelegatedFree fresh [atom 50]) [atom 50].

End Scenario.

(** Further concrete inputs: an account with a zero duration, a base
    account without an address, and three parameter spaces. *)
Module Sample.

(** 100 atom with [endTime] at the second of [startTime]. *)
Definition zeroDuration : ContinuousVestingAccount :=
  NewContinuousVestingAccount [] [atom 100] 100 100.

Definition noAddress : BaseAccount :=
  mkBaseAccount [] [atom 1] None 0 0.

(** No key modified, and no key that would decode. *)
Definition untouched : consensus.Space :=
  consensus.mkSpace (fun _ => false) (fun _ => None).

(** Only the gas limit of a transaction modified, to 7; the other keys do
    not decode in [gasOnly] and hold 9 in [gasOnly']. *)
Definition gasModified (key : consensus.Key) : bool :=
  match key with
  | consensus.txMaxGasKey => true
  | _ => false
  end.

Definition gasOnly : consensus.Space :=
  consensus.mkSpace gasModified
    (fun key => if gasModified key then Some 7 else None).

Definition gasOnly' : consensus.Space :=
  consensus.mkSpace gasModified
    (fun key => if gasModified key then Some 7 else Some 9).

End Sample.

(** * Facts *)

(** ** The order on denominations *)

Lemma dlt_trans a b c : dlt a b -> dlt b c -> dlt a c.
Proof.
  unfold dlt. intros H1 H2.
  apply String_as_OT.cmp_lt in H1. apply String_as_OT.cmp_lt in H2.
  apply String_as_OT.cmp_lt. eapply String_as_OT.lt_trans; eassumption.
Qed.

Lemma compare_refl a : String.compare a a = Eq.
Proof. apply String_as_OT.cmp_eq. reflexivity. Qed.

Lemma dlt_irrefl a : ~ dlt a a.
Proof. unfold dlt. rewrite compare_refl. discriminate. Qed.

Lemma dlt_neq a b : dlt a b -> a <> b.
Proof. intros H ->. exact (dlt_irrefl _ H). Qed.

Lemma compare_Gt_dlt a b : String.compare a b = Gt -> dlt b a.
Proof.
  unfold dlt. intros H. rewrite String.compare_antisym, H. reflexivity.
Qed.

Lemma compare_Eq_eq a b : String.compare a b = Eq -> a = b.
Proof. apply String.compare_eq_iff. Qed.

Lemma dlt_eqb_false a b : dlt a b -> String.eqb a b = false.
Proof. intros H. apply String.eqb_neq. apply dlt_neq, H. Qed.

Lemma dlt_eqb_false' a b : dlt a b -> String.eqb b a = false.
Proof.
  intros H. apply String.eqb_neq. intros E. symmetry in E.
  exact (dlt_neq _ _ H E).
Qed.

(** ** 64-bit differences *)

Lemma wrap64_id z : int64 z -> wrap64 z = z.
Proof.
  unfold int64, wrap64. intros H.
  rewrite Z.mod_small; lia.
Qed.

Lemma int64b_spec z : int64b z = true <-> int64 z.
Proof. unfold int64b, int64. rewrite andb_true_iff. lia. Qed.

(** ** Coins *)

Module CoinFacts.
Import sdk.

Lemma above_trans d d' l : dlt d d' -> above d' l -> above d l.
Proof.
  unfold above. intros Hd Hl. induction Hl; constructor; auto.
  eapply dlt_trans; eassumption.
Qed.

Lemma above_AmountOf d l : above d l -> AmountOf l d = 0.
Proof.
  unfold above. induction 1 as [|c l Hc _ IH]; simpl; [reflexivity|].
  rewrite (dlt_eqb_false' _ _ Hc). exact IH.
Qed.

Lemma ascending_tail c l : ascending (c :: l) -> ascending l.
Proof. inversion 1; assumption. Qed.

Lemma ascending_head c l : ascending (c :: l) -> above (Denom c) l.
Proof. inversion 1; assumption. Qed.

Lemma ascending_single c : ascending [c].
Proof. constructor; [constructor | constructor]. Qed.

Lemma AmountOf_single c d :
  AmountOf [c] d = if String.eqb (Denom c) d then Amount c else 0.
Proof. reflexivity. Qed.

(** *** Zero stripping *)

Lemma AmountOf_removeZeroCoins l d :
  ascending l -> AmountOf (removeZeroCoins l) d = AmountOf l d.
Proof.
  induction 1 as [|c l Hc Hl IH]; simpl; [reflexivity|].
  unfold IsZero. destruct (Amount c =? 0) eqn:E; simpl.
  - rewrite IH. apply Z.eqb_eq in E.
    destruct (String.eqb (Denom c) d) eqn:Ed; [|reflexivity].
    apply String.eqb_eq in Ed. subst d.
    rewrite (above_AmountOf _ _ Hc). symmetry. exact E.
  - rewrite IH. reflexivity.
Qed.

Lemma above_removeZeroCoins d l : above d l -> above d (removeZeroCoins l).
Proof.
  unfold above, removeZeroCoins. intros H.
  apply Forall_forall. intros c Hc. apply filter_In in Hc.
  rewrite Forall_forall in H. apply H, Hc.
Qed.

Lemma ascending_removeZeroCoins l :
  ascending l -> ascending (removeZeroCoins l).
Proof.
  induction 1 as [|c l Hc Hl IH]; simpl; [constructor|].
  destruct (negb (IsZero c)); [|exact IH].
  constructor; [apply above_removeZeroCoins, Hc | exact IH].
Qed.

Lemma AmountOf_appendNonZero c l d :
  above (Denom c) l ->
  AmountOf (appendNonZero c l) d = AmountOf (c :: l) d.
Proof.
  unfold appendNonZero, IsZero. simpl. intros Hc.
  destruct (Amount c =? 0) eqn:E; [|reflexivity].
  apply Z.eqb_eq in E.
  destruct (String.eqb (Denom c) d) eqn:Ed; [|reflexivity].
  apply String.eqb_eq in Ed. subst d.
  rewrite (above_AmountOf _ _ Hc). symmetry. exact E.
Qed.

Lemma above_appendNonZero d c l :
  dlt d (Denom c) -> above d l -> above d (appendNonZero c l).
Proof.
  unfold appendNonZero. intros Hc Hl.
  destruct (IsZero c); [exact Hl | constructor; assumption].
Qed.

Lemma ascending_appendNonZero c l :
  above (Denom c) l -> ascending l -> ascending (appendNonZero c l).
Proof.
  unfold appendNonZero. intros Hc Hl.
  destruct (IsZero c); [exact Hl | constructor; assumption].
Qed.

(** *** The merge *)

Lemma safePlus_nil_r a : safePlus a [] = removeZeroCoins a.
Proof. destruct a; reflexivity. Qed.

Lemma safePlus_cons ca ra cb rb :
  safePlus (ca :: ra) (cb :: rb) =
  match String.compare (Denom ca) (Denom cb) with
  | Lt => appendNonZero ca (safePlus ra (cb :: rb))
  | Eq => appendNonZero
            {| Denom := Denom ca; Amount := Amount ca + Amount cb |}
            (safePlus ra rb)
  | Gt => appendNonZero cb (safePlus (ca :: ra) rb)
  end.
Proof. reflexivity. Qed.

Lemma above_safePlus d a : forall b,
  above d a -> above d b -> above d (safePlus a b).
Proof.
  induction a as [|ca ra IHa]; intros b Ha Hb.
  - simpl. apply above_removeZeroCoins, Hb.
  - induction b as [|cb rb IHb].
    + rewrite safePlus_nil_r. apply above_removeZeroCoins, Ha.
    + rewrite safePlus_cons.
      pose proof (Forall_inv Ha) as Hca. pose proof (Forall_inv_tail Ha) as Hra.
      pose proof (Forall_inv Hb) as Hcb. pose proof (Forall_inv_tail Hb) as Hrb.
      destruct (String.compare (Denom ca) (Denom cb)).
      * apply above_appendNonZero; [exact Hca | apply IHa; assumption].
      * apply above_appendNonZero; [exact Hca | apply IHa; assumption].
      * apply above_appendNonZero; [exact Hcb | apply IHb; assumption].
Qed.

Lemma ascending_safePlus a : forall b,
  ascending a -> ascending b -> ascending (safePlus a b).
Proof.
  induction a as [|ca ra IHa]; intros b Ha Hb.
  - simpl. apply ascending_removeZeroCoins, Hb.
  - induction b as [|cb rb IHb].
    + rewrite safePlus_nil_r. apply ascending_removeZeroCoins, Ha.
    + rewrite safePlus_cons.
      pose proof (ascending_head _ _ Ha) as Hca.
      pose proof (ascending_tail _ _ Ha) as Hra.
      pose proof (ascending_head _ _ Hb) as Hcb.
      pose proof (ascending_tail _ _ Hb) as Hrb.
      destruct (String.compare (Denom ca) (Denom cb)) eqn:E.
      * apply compare_Eq_eq in E.
        apply ascending_appendNonZero; [|apply IHa; assumption].
        simpl. apply above_safePlus; [exact Hca | rewrite E; exact Hcb].
      * apply ascending_appendNonZero; [|apply IHa; assumption].
        apply above_safePlus; [exact Hca|].
        constructor; [exact E | eapply above_trans; eassumption].
      * apply compare_Gt_dlt in E.
        apply ascending_appendNonZero; [|apply IHb; assumption].
        apply above_safePlus; [|exact Hcb].
        constructor; [exact E | eapply above_trans; eassumption].
Qed.

Lemma AmountOf_safePlus a : forall b d,
  ascending a -> ascending b ->
  AmountOf (safePlus a b) d = AmountOf a d + AmountOf b d.
Proof.
  induction a as [|ca ra IHa]; intros b d Ha Hb.
  - simpl. apply AmountOf_removeZeroCoins, Hb.
  - induction b as [|cb rb IHb].
    + rewrite safePlus_nil_r, AmountOf_removeZeroCoins by exact Ha.
      simpl. unfold ZeroInt. lia.
    + rewrite safePlus_cons.
      pose proof (ascending_head _ _ Ha) as Hca.
      pose proof (ascending_tail _ _ Ha) as Hra.
      pose proof (ascending_head _ _ Hb) as Hcb.
      pose proof (ascending_tail _ _ Hb) as Hrb.
      destruct (String.compare (Denom ca) (Denom cb)) eqn:E.
      * apply compare_Eq_eq in E.
        rewrite AmountOf_appendNonZero.
        2:{ simpl. apply above_safePlus; [exact Hca | rewrite E; exact Hcb]. }
        simpl. rewrite <- E.
        destruct (String.eqb (Denom ca) d); [reflexivity|].
        apply IHa; assumption.
      * assert (Hcb' : above (Denom ca) (cb :: rb)).
        { constructor; [exact E | eapply above_trans; eassumption]. }
        rewrite AmountOf_appendNonZero
          by (apply above_safePlus; assumption).
        change (AmountOf (ca :: safePlus ra (cb :: rb)) d)
          with (if String.eqb (Denom ca) d then Amount ca
                else AmountOf (safePlus ra (cb :: rb)) d).
        change (AmountOf (ca :: ra) d)
          with (if String.eqb (Denom ca) d then Amount ca else AmountOf ra d).
        destruct (String.eqb (Denom ca) d) eqn:Ed.
        -- apply String.eqb_eq in Ed. subst d.
           rewrite (above_AmountOf (Denom ca) (cb :: rb)); [lia|].
           exact Hcb'.
        -- apply IHa; assumption.
      * apply compare_Gt_dlt in E.
        assert (Hca' : above (Denom cb) (ca :: ra)).
        { constructor; [exact E | eapply above_trans; eassumption]. }
        rewrite AmountOf_appendNonZero
          by (apply above_safePlus; assumption).
        change (AmountOf (cb :: safePlus (ca :: ra) rb) d)
          with (if String.eqb (Denom cb) d then Amount cb
                else AmountOf (safePlus (ca :: ra) rb) d).
        change (AmountOf (cb :: rb) d)
          with (if String.eqb (Denom cb) d then Amount cb else AmountOf rb d).
        destruct (String.eqb (Denom cb) d) eqn:Ed.
        -- apply String.eqb_eq in Ed. subst d.
           rewrite (above_AmountOf (Denom cb) (ca :: ra)); [lia|].
           exact Hca'.
        -- apply IHb; assumption.
Qed.

(** *** No zero amounts in a sum *)

Lemma nonzero_removeZeroCoins l : nonzero (removeZeroCoins l).
Proof.
  apply Forall_forall. intros c Hc. apply filter_In in Hc.
  destruct Hc as [_ Hc]. unfold IsZero in Hc.
  apply negb_true_iff, Z.eqb_neq in Hc. exact Hc.
Qed.

Lemma nonzero_appendNonZero c l : nonzero l -> nonzero (appendNonZero c l).
Proof.
  unfold appendNonZero, IsZero. intros Hl.
  destruct (Amount c =? 0) eqn:E; [exact Hl|].
  constructor; [apply Z.eqb_neq, E | exact Hl].
Qed.

Lemma nonzero_safePlus a : forall b, nonzero (safePlus a b).
Proof.
  induction a as [|ca ra IHa]; intros b.
  - apply nonzero_removeZeroCoins.
  - induction b as [|cb rb IHb].
    + rewrite safePlus_nil_r. apply nonzero_removeZeroCoins.
    + rewrite safePlus_cons.
      destruct (String.compare (Denom ca) (Denom cb));
        apply nonzero_appendNonZero; auto.
Qed.

(** *** Amounts of a sorted sequence *)

Lemma In_AmountOf l c : ascending l -> In c l -> AmountOf l (Denom c) = Amount c.
Proof.
  induction 1 as [|c0 l Hc Hl IH]; intros Hin; [contradiction|].
  simpl. destruct Hin as [->|Hin].
  - rewrite String.eqb_refl. reflexivity.
  - unfold above in Hc. rewrite Forall_forall in Hc.
    rewrite (dlt_eqb_false _ _ (Hc _ Hin)). apply IH, Hin.
Qed.

Lemma AmountOf_In l d :
  AmountOf l d <> 0 -> exists c, In c l /\ Denom c = d /\ Amount c = AmountOf l d.
Proof.
  induction l as [|c l IH]; simpl; intros H; [contradiction H; reflexivity|].
  destruct (String.eqb (Denom c) d) eqn:E.
  - apply String.eqb_eq in E. exists c. auto.
  - destruct (IH H) as (c' & Hin & Hd & Ha). exists c'. auto.
Qed.

Lemma IsNotNegative_spec l :
  ascending l -> (IsNotNegative l = true <-> forall d, 0 <= AmountOf l d).
Proof.
  intros Hl. unfold IsNotNegative. rewrite forallb_forall. split.
  - intros H d. destruct (Z.eq_dec (AmountOf l d) 0) as [E|E]; [lia|].
    destruct (AmountOf_In _ _ E) as (c & Hin & _ & Ha).
    specialize (H _ Hin). apply negb_true_iff, Z.ltb_ge in H. lia.
  - intros H c Hin. apply negb_true_iff, Z.ltb_ge.
    rewrite <- (In_AmountOf _ _ Hl Hin). apply H.
Qed.

Lemma positive_AmountOf l d : positive l -> 0 <= AmountOf l d.
Proof.
  induction 1 as [|c l Hc _ IH]; simpl; [unfold ZeroInt; lia|].
  destruct (String.eqb (Denom c) d); lia.
Qed.

Lemma positive_of_amounts l :
  ascending l -> nonzero l -> (forall d, 0 <= AmountOf l d) -> positive l.
Proof.
  intros Hl Hnz Hge. apply Forall_forall. intros c Hin.
  unfold nonzero in Hnz. rewrite Forall_forall in Hnz.
  pose proof (Hnz _ Hin). pose proof (Hge (Denom c)) as H1.
  rewrite (In_AmountOf _ _ Hl Hin) in H1. lia.
Qed.

(** *** The normal form *)

Lemma validFrom_spec l : forall low,
  validFrom low l = true <-> above low l /\ ascending l /\ positive l.
Proof.
  induction l as [|c l IH]; intros low; simpl.
  - split; [intros _|reflexivity].
    repeat split; constructor.
  - destruct (String.compare low (Denom c)) eqn:E.
    + split; [discriminate|]. intros (Ha & _).
      apply Forall_inv in Ha. unfold dlt in Ha. congruence.
    + rewrite andb_true_iff, IH. unfold IsPositive. rewrite Z.ltb_lt. split.
      * intros (Hp & Ha & Hs & Hpos).
        repeat split.
        -- constructor; [exact E | eapply above_trans; eassumption].
        -- constructor; assumption.
        -- constructor; assumption.
      * intros (Ha & Hs & Hpos).
        repeat split.
        -- apply (Forall_inv Hpos).
        -- apply (ascending_head _ _ Hs).
        -- apply (ascending_tail _ _ Hs).
        -- apply (Forall_inv_tail Hpos).
    + split; [discriminate|]. intros (Ha & _).
      apply Forall_inv in Ha. unfold dlt in Ha. congruence.
Qed.

Lemma IsValid_spec l : IsValid l = true <-> ascending l /\ positive l.
Proof.
  destruct l as [|c l]; simpl.
  - split; [intros _; split; constructor | reflexivity].
  - rewrite andb_true_iff, validFrom_spec. unfold IsPositive.
    rewrite Z.ltb_lt. split.
    + intros (Hp & Ha & Hs & Hpos). split; constructor; assumption.
    + intros (Hs & Hpos). repeat split.
      * apply (Forall_inv Hpos).
      * apply (ascending_head _ _ Hs).
      * apply (ascending_tail _ _ Hs).
      * apply (Forall_inv_tail Hpos).
Qed.

Lemma IsValid_ascending l : IsValid l = true -> ascending l.
Proof. intros H. apply IsValid_spec in H. tauto. Qed.

Lemma IsValid_nonneg l d : IsValid l = true -> 0 <= AmountOf l d.
Proof. intros H. apply IsValid_spec in H. apply positive_AmountOf. tauto. Qed.

Lemma IsValid_of_amounts l :
  ascending l -> nonzero l -> (forall d, 0 <= AmountOf l d) -> IsValid l = true.
Proof.
  intros. apply IsValid_spec. split; [assumption|].
  apply positive_of_amounts; assumption.
Qed.

(** *** Plus and Minus *)

Lemma AmountOf_Plus a b d :
  ascending a -> ascending b ->
  AmountOf (Plus a b) d = AmountOf a d + AmountOf b d.
Proof. apply AmountOf_safePlus. Qed.

Lemma ascending_Plus a b : ascending a -> ascending b -> ascending (Plus a b).
Proof. apply ascending_safePlus. Qed.

Lemma IsValid_Plus a b :
  IsValid a = true -> IsValid b = true -> IsValid (Plus a b) = true.
Proof.
  intros Ha Hb.
  pose proof (IsValid_ascending _ Ha) as Sa.
  pose proof (IsValid_ascending _ Hb) as Sb.
  apply IsValid_of_amounts.
  - apply ascending_Plus; assumption.
  - apply nonzero_safePlus.
  - intros d. rewrite AmountOf_Plus by assumption.
    pose proof (IsValid_nonneg a d Ha). pose proof (IsValid_nonneg b d Hb). lia.
Qed.

Lemma above_negative d l : above d l -> above d (negative l).
Proof.
  unfold above, negative. intros H. apply Forall_map.
  simpl. exact H.
Qed.

Lemma ascending_negative l : ascending l -> ascending (negative l).
Proof.
  induction 1 as [|c l Hc Hl IH]; simpl; constructor.
  - simpl. apply above_negative, Hc.
  - exact IH.
Qed.

Lemma AmountOf_negative l d : AmountOf (negative l) d = - AmountOf l d.
Proof.
  induction l as [|c l IH]; simpl; [reflexivity|].
  destruct (String.eqb (Denom c) d); [reflexivity | exact IH].
Qed.

Lemma AmountOf_diff a b d :
  ascending a -> ascending b ->
  AmountOf (safePlus a (negative b)) d = AmountOf a d - AmountOf b d.
Proof.
  intros Ha Hb. rewrite AmountOf_safePlus, AmountOf_negative; [lia | assumption |].
  apply ascending_negative, Hb.
Qed.

Lemma Minus_Ok a b diff :
  ascending a -> ascending b -> Minus a b = Ok diff ->
  IsValid diff = true /\ forall d, AmountOf diff d = AmountOf a d - AmountOf b d.
Proof.
  unfold Minus. intros Ha Hb H.
  destruct (IsNotNegative (safePlus a (negative b))) eqn:E; [|discriminate].
  injection H as <-.
  assert (Hs : ascending (safePlus a (negative b)))
    by (apply ascending_safePlus; [assumption | apply ascending_negative, Hb]).
  split.
  - apply IsValid_of_amounts; [exact Hs | apply nonzero_safePlus |].
    apply IsNotNegative_spec; assumption.
  - intros d. apply AmountOf_diff; assumption.
Qed.

Lemma Minus_succeeds a b :
  ascending a -> ascending b -> (forall d, AmountOf b d <= AmountOf a d) ->
  exists diff, Minus a b = Ok diff.
Proof.
  unfold Minus. intros Ha Hb H.
  assert (Hs : ascending (safePlus a (negative b)))
    by (apply ascending_safePlus; [assumption | apply ascending_negative, Hb]).
  assert (E : IsNotNegative (safePlus a (negative b)) = true).
  { apply IsNotNegative_spec; [exact Hs|]. intros d.
    rewrite AmountOf_diff by assumption. specialize (H d). lia. }
  rewrite E. eexists. reflexivity.
Qed.

Lemma Minus_fails a b d :
  ascending a -> ascending b -> AmountOf a d < AmountOf b d ->
  Minus a b = Err NegativeResult.
Proof.
  unfold Minus. intros Ha Hb H.
  assert (Hs : ascending (safePlus a (negative b)))
    by (apply ascending_safePlus; [assumption | apply ascending_negative, Hb]).
  destruct (IsNotNegative (safePlus a (negative b))) eqn:E; [|reflexivity].
  exfalso. apply (proj1 (IsNotNegative_spec _ Hs)) with (d := d) in E.
  rewrite AmountOf_diff in E by assumption. lia.
Qed.

(** Two sequences in normal form with the same amounts are the same. *)
Lemma IsValid_ext a : forall b,
  IsValid a = true -> IsValid b = true ->
  (forall d, AmountOf a d = AmountOf b d) -> a = b.
Proof.
  induction a as [|ca ra IH]; intros b Ha Hb H.
  - destruct b as [|cb rb]; [reflexivity|]. exfalso.
    apply IsValid_spec in Hb. destruct Hb as [_ Hb].
    apply Forall_inv in Hb. specialize (H (Denom cb)). simpl in H.
    rewrite String.eqb_refl in H. unfold ZeroInt in H. lia.
  - apply IsValid_spec in Ha. destruct Ha as [Sa Pa].
    destruct b as [|cb rb].
    + exfalso. apply Forall_inv in Pa. specialize (H (Denom ca)). simpl in H.
      rewrite String.eqb_refl in H. unfold ZeroInt in H. lia.
    + apply IsValid_spec in Hb. destruct Hb as [Sb Pb].
      pose proof (ascending_head _ _ Sa) as Hca.
      pose proof (ascending_head _ _ Sb) as Hcb.
      assert (E : Denom ca = Denom cb).
      { destruct (String.compare (Denom ca) (Denom cb)) eqn:C.
        - apply compare_Eq_eq, C.
        - exfalso. pose proof (H (Denom ca)) as H1. simpl in H1.
          rewrite String.eqb_refl in H1.
          rewrite (dlt_eqb_false' _ _ C) in H1.
          rewrite (above_AmountOf (Denom ca) rb) in H1
            by (eapply above_trans; eassumption).
          apply Forall_inv in Pa. lia.
        - exfalso. apply compare_Gt_dlt in C.
          pose proof (H (Denom cb)) as H1. simpl in H1.
          rewrite String.eqb_refl in H1.
          rewrite (dlt_eqb_false' _ _ C) in H1.
          rewrite (above_AmountOf (Denom cb) ra) in H1
            by (eapply above_trans; eassumption).
          apply Forall_inv in Pb. lia. }
      assert (Ea : Amount ca = Amount cb).
      { pose proof (H (Denom ca)) as H1. simpl in H1.
        rewrite String.eqb_refl in H1.
        rewrite <- E, String.eqb_refl in H1. exact H1. }
      assert (ca = cb) by (destruct ca, cb; simpl in *; congruence).
      subst cb. f_equal. apply IH.
      * apply IsValid_spec. split; [apply (ascending_tail _ _ Sa)|].
        apply (Forall_inv_tail Pa).
      * apply IsValid_spec. split; [apply (ascending_tail _ _ Sb)|].
        apply (Forall_inv_tail Pb).
      * intros d. specialize (H d). simpl in H.
        destruct (String.eqb (Denom ca) d) eqn:Ed; [|exact H].
        apply String.eqb_eq in Ed. subst d.
        rewrite (above_AmountOf _ _ Hca), (above_AmountOf _ _ Hcb). reflexivity.
Qed.

End CoinFacts.

(** ** Decimals *)

Module DecFacts.
Import sdk.

Lemma precisionReuse_pos : 0 < precisionReuse.
Proof. reflexivity. Qed.

Lemma fivePrecision_half : precisionReuse = 2 * fivePrecision.
Proof. reflexivity. Qed.

Section Rounding.
Context {R : Rounding}.

(** The rounded magnitude is the truncated quotient, or one more when the
    remainder is at least a half. *)
Lemma chopMagnitude_cases d :
  (chopMagnitude d = d / precisionReuse /\ d mod precisionReuse <= fivePrecision)
  \/ (chopMagnitude d = d / precisionReuse + 1
      /\ fivePrecision <= d mod precisionReuse).
Proof.
  unfold chopMagnitude.
  pose proof (Z.mod_pos_bound d precisionReuse precisionReuse_pos) as Hm.
  pose proof fivePrecision_half as Hh.
  destruct (d mod precisionReuse =? 0) eqn:E0.
  { apply Z.eqb_eq in E0. left. split; [reflexivity | lia]. }
  destruct (d mod precisionReuse <? fivePrecision) eqn:E1.
  { apply Z.ltb_lt in E1. left. split; [reflexivity | lia]. }
  destruct (fivePrecision <? d mod precisionReuse) eqn:E2.
  { apply Z.ltb_lt in E2. right. split; [reflexivity | lia]. }
  apply Z.ltb_ge in E1. apply Z.ltb_ge in E2.
  destruct (tie_up (d / precisionReuse)); [right | left];
    (split; [reflexivity | lia]).
Qed.

Lemma chopMagnitude_exact k : chopMagnitude (k * precisionReuse) = k.
Proof.
  unfold chopMagnitude.
  rewrite Z.mod_mul, Z.div_mul by (pose proof precisionReuse_pos; lia).
  reflexivity.
Qed.

Lemma chopMagnitude_nonneg d : 0 <= d -> 0 <= chopMagnitude d.
Proof.
  intros Hd.
  pose proof (Z.div_pos d precisionReuse Hd precisionReuse_pos).
  destruct (chopMagnitude_cases d) as [[-> _]|[-> _]]; lia.
Qed.

Lemma chopMagnitude_mono a b : a <= b -> chopMagnitude a <= chopMagnitude b.
Proof.
  intros Hab.
  pose proof precisionReuse_pos as HP.
  pose proof (Z.div_le_mono a b precisionReuse HP Hab) as Hq.
  pose proof (Z.div_mod a precisionReuse ltac:(lia)) as Ea.
  pose proof (Z.div_mod b precisionReuse ltac:(lia)) as Eb.
  destruct (Z.eq_dec a b) as [->|Hne]; [lia|].
  destruct (chopMagnitude_cases a) as [[-> Ha]|[-> Ha]];
    destruct (chopMagnitude_cases b) as [[-> Hb]|[-> Hb]]; try lia.
  (* a rounds up and b rounds down: the quotients differ *)
  destruct (Z.eq_dec (a / precisionReuse) (b / precisionReuse)) as [E|E];
    [|lia].
  rewrite E in Ea. exfalso. lia.
Qed.

Lemma chop_exact k : chopPrecisionAndRound (k * precisionReuse) = k.
Proof.
  unfold chopPrecisionAndRound. pose proof precisionReuse_pos as HP.
  destruct (k * precisionReuse <? 0) eqn:E.
  - replace (- (k * precisionReuse)) with ((- k) * precisionReuse) by ring.
    rewrite chopMagnitude_exact. lia.
  - apply chopMagnitude_exact.
Qed.

Lemma chop_nonneg d : 0 <= d -> 0 <= chopPrecisionAndRound d.
Proof.
  unfold chopPrecisionAndRound. intros Hd.
  destruct (d <? 0) eqn:E; [apply Z.ltb_lt in E; lia|].
  apply chopMagnitude_nonneg, Hd.
Qed.

Lemma chop_nonpos d : d <= 0 -> chopPrecisionAndRound d <= 0.
Proof.
  unfold chopPrecisionAndRound. intros Hd.
  destruct (d <? 0) eqn:E.
  - pose proof (chopMagnitude_nonneg (- d)). lia.
  - apply Z.ltb_ge in E. assert (d = 0) as -> by lia.
    change 0 with (0 * precisionReuse). rewrite chopMagnitude_exact. lia.
Qed.

Lemma chop_mono a b :
  a <= b -> chopPrecisionAndRound a <= chopPrecisionAndRound b.
Proof.
  unfold chopPrecisionAndRound. intros Hab.
  destruct (a <? 0) eqn:Ea; destruct (b <? 0) eqn:Eb;
    try apply Z.ltb_lt in Ea; try apply Z.ltb_ge in Ea;
    try apply Z.ltb_lt in Eb; try apply Z.ltb_ge in Eb.
  - pose proof (chopMagnitude_mono (- b) (- a)). lia.
  - pose proof (chopMagnitude_nonneg (- a)).
    pose proof (chopMagnitude_nonneg b). lia.
  - lia.
  - apply chopMagnitude_mono, Hab.
Qed.

Lemma vestedAmt_zero s : vestedAmt s 0 = 0.
Proof.
  unfold vestedAmt, RoundInt, Mul, NewDecFromInt. simpl.
  change 0 with (0 * precisionReuse). rewrite !chop_exact. reflexivity.
Qed.

Lemma vestedAmt_one amount : vestedAmt precisionReuse amount = amount.
Proof.
  unfold vestedAmt, RoundInt, Mul, NewDecFromInt.
  rewrite !chop_exact. reflexivity.
Qed.

Lemma vestedAmt_mono s s' amount :
  0 <= amount -> s <= s' -> vestedAmt s amount <= vestedAmt s' amount.
Proof.
  unfold vestedAmt, RoundInt, Mul, NewDecFromInt. intros Ha Hs.
  pose proof precisionReuse_pos. do 2 apply chop_mono.
  apply Z.mul_le_mono_nonneg_l; [apply Z.mul_nonneg_nonneg; lia | exact Hs].
Qed.

Lemma vestedAmt_nonneg s amount :
  0 <= amount -> 0 <= s -> 0 <= vestedAmt s amount.
Proof.
  unfold vestedAmt, RoundInt, Mul, NewDecFromInt. intros Ha Hs.
  pose proof precisionReuse_pos. do 2 apply chop_nonneg.
  repeat apply Z.mul_nonneg_nonneg; lia.
Qed.

Lemma vestedAmt_nonpos s amount :
  0 <= amount -> s <= 0 -> vestedAmt s amount <= 0.
Proof.
  unfold vestedAmt, RoundInt, Mul, NewDecFromInt. intros Ha Hs.
  pose proof precisionReuse_pos. do 2 apply chop_nonpos.
  apply Z.mul_nonneg_nonpos; [apply Z.mul_nonneg_nonneg; lia | exact Hs].
Qed.

Lemma vestedAmt_le s amount :
  0 <= amount -> s <= precisionReuse -> vestedAmt s amount <= amount.
Proof.
  intros Ha Hs. rewrite <- (vestedAmt_one amount) at 2.
  apply vestedAmt_mono; assumption.
Qed.

(** The vesting scalar [x / y]. *)
Lemma Quo_zero x : Quo (NewDec x) (NewDec 0) = Err DivisionByZero.
Proof. reflexivity. Qed.

Lemma Quo_Ok x y :
  y <> 0 ->
  Quo (NewDec x) (NewDec y)
  = Ok (chopPrecisionAndRound
          (Z.quot (x * precisionReuse * precisionReuse * precisionReuse)
                  (y * precisionReuse))).
Proof.
  unfold Quo, NewDec. intros Hy. pose proof precisionReuse_pos as HP.
  destruct (y * precisionReuse =? 0) eqn:E; [|reflexivity].
  apply Z.eqb_eq in E. apply Z.mul_eq_0 in E. lia.
Qed.

Lemma Quo_inv x y s : Quo (NewDec x) (NewDec y) = Ok s ->
  y <> 0 /\
  s = chopPrecisionAndRound
        (Z.quot (x * precisionReuse * precisionReuse * precisionReuse)
                (y * precisionReuse)).
Proof.
  intros H. destruct (Z.eq_dec y 0) as [->|Hy].
  - rewrite Quo_zero in H. discriminate.
  - rewrite (Quo_Ok x y Hy) in H. injection H as <-. auto.
Qed.

Lemma scalar_mono x x' y : 0 < y -> x <= x' -> scalar x y <= scalar x' y.
Proof.
  unfold scalar. intros Hy Hx. pose proof precisionReuse_pos as HP.
  apply chop_mono. apply Z.quot_le_mono.
  - apply Z.mul_pos_pos; assumption.
  - repeat apply Z.mul_le_mono_nonneg_r; lia.
Qed.

Lemma scalar_nonneg x y : 0 < y -> 0 <= x -> 0 <= scalar x y.
Proof.
  unfold scalar. intros Hy Hx. pose proof precisionReuse_pos as HP.
  apply chop_nonneg. apply Z.quot_pos.
  - repeat apply Z.mul_nonneg_nonneg; lia.
  - apply Z.mul_pos_pos; assumption.
Qed.

Lemma scalar_one y : 0 < y -> scalar y y = precisionReuse.
Proof.
  unfold scalar. intros Hy. pose proof precisionReuse_pos as HP.
  replace (y * precisionReuse * precisionReuse * precisionReuse)
    with (precisionReuse * precisionReuse * (y * precisionReuse)) by ring.
  rewrite Z.quot_mul.
  - apply chop_exact.
  - intros E. apply Z.mul_eq_0 in E. lia.
Qed.

Lemma scalar_le_one x y : 0 < y -> x <= y -> scalar x y <= precisionReuse.
Proof.
  intros Hy Hx. rewrite <- (scalar_one y Hy). apply scalar_mono; assumption.
Qed.

Lemma scalar_nonpos x y : y < 0 -> 0 <= x -> scalar x y <= 0.
Proof.
  unfold scalar. intros Hy Hx. pose proof precisionReuse_pos as HP.
  apply chop_nonpos.
  replace (y * precisionReuse) with (- ((- y) * precisionReuse)) by ring.
  rewrite Z.quot_opp_r.
  - assert (0 <= Z.quot
                   (x * precisionReuse * precisionReuse * precisionReuse)
                   ((- y) * precisionReuse)).
    { apply Z.quot_pos.
      - repeat apply Z.mul_nonneg_nonneg; lia.
      - apply Z.mul_pos_pos; lia. }
    lia.
  - intros E. apply Z.mul_eq_0 in E. lia.
Qed.
Lemma scalar_two y : 0 < y -> scalar (2 * y) y = 2 * precisionReuse.
Proof.
  unfold scalar. intros Hy. pose proof precisionReuse_pos as HP.
  replace (2 * y * precisionReuse * precisionReuse * precisionReuse)
    with (2 * precisionReuse * precisionReuse * (y * precisionReuse)) by ring.
  rewrite Z.quot_mul.
  - apply chop_exact.
  - intros E. apply Z.mul_eq_0 in E. lia.
Qed.

Lemma vestedAmt_two amount : vestedAmt (2 * precisionReuse) amount = 2 * amount.
Proof.
  unfold vestedAmt, RoundInt, Mul, NewDecFromInt.
  replace (amount * precisionReuse * (2 * precisionReuse))
    with (2 * amount * precisionReuse * precisionReuse) by ring.
  rewrite !chop_exact. reflexivity.
Qed.

End Rounding.

End DecFacts.

(** ** The vesting schedule *)

Section VestingFacts.
Context {R : sdk.Rounding}.
Import sdk CoinFacts DecFacts.

Lemma NewCoin_Ok denom amount :
  0 <= amount -> NewCoin denom amount = Ok {| Denom := denom; Amount := amount |}.
Proof.
  unfold NewCoin, ZeroInt. intros H.
  destruct (amount <? 0) eqn:E; [apply Z.ltb_lt in E; lia | reflexivity].
Qed.

Lemma NewCoin_Err denom amount :
  amount < 0 -> NewCoin denom amount = Err NegativeCoinAmount.
Proof.
  unfold NewCoin, ZeroInt. intros H.
  destruct (amount <? 0) eqn:E; [reflexivity | apply Z.ltb_ge in E; lia].
Qed.

Lemma NewCoin_inv denom amount coin :
  NewCoin denom amount = Ok coin ->
  0 <= amount /\ coin = {| Denom := denom; Amount := amount |}.
Proof.
  unfold NewCoin, ZeroInt.
  destruct (amount <? 0) eqn:E; [discriminate|].
  apply Z.ltb_ge in E. intros H. injection H as <-. auto.
Qed.

(** The loop of [GetVestedCoins] under the scalar [s]. *)
Lemma vested_loop_inv (s : Dec) ov : forall acc res,
  ascending ov -> ascending acc -> nonzero acc ->
  rangeR
    (fun vestedCoins ovc =>
       let vestedAmt := RoundInt (Mul (NewDecFromInt (Amount ovc)) s) in
       try vestedCoin <- NewCoin (Denom ovc) vestedAmt ;
       Ok (Plus vestedCoins [vestedCoin]))
    ov acc = Ok res ->
  ascending res /\ nonzero res
  /\ (forall d, AmountOf res d = AmountOf acc d + vestedAmt s (AmountOf ov d))
  /\ Forall (fun c => 0 <= vestedAmt s (Amount c)) ov.
Proof.
  induction ov as [|c rest IH]; intros acc res Hov Hacc Hnz H.
  - simpl in H. injection H as <-. repeat split; auto.
    intros d. simpl. rewrite vestedAmt_zero. lia.
  - cbn [rangeR] in H. cbv zeta in H. fold (vestedAmt s (Amount c)) in H.
    destruct (NewCoin (Denom c) (vestedAmt s (Amount c))) as [coin|e] eqn:E;
      [|discriminate].
    apply NewCoin_inv in E. destruct E as [Hge ->]. simpl in H.
    pose proof (ascending_head _ _ Hov) as Hc.
    pose proof (ascending_tail _ _ Hov) as Hrest.
    apply IH in H; [|assumption| |apply nonzero_safePlus].
    2:{ apply ascending_Plus; [assumption | apply ascending_single]. }
    destruct H as (Hres & Hnzres & Hamt & Hall).
    repeat split; auto.
    intros d. rewrite Hamt, AmountOf_Plus
      by (assumption || apply ascending_single).
    simpl. destruct (String.eqb (Denom c) d) eqn:Ed.
    + apply String.eqb_eq in Ed. subst d.
      rewrite (above_AmountOf _ _ Hc), vestedAmt_zero. lia.
    + unfold ZeroInt. lia.
Qed.

Lemma vested_loop_ok (s : Dec) ov : forall acc,
  Forall (fun c => 0 <= vestedAmt s (Amount c)) ov ->
  exists res,
    rangeR
      (fun vestedCoins ovc =>
         let vestedAmt := RoundInt (Mul (NewDecFromInt (Amount ovc)) s) in
         try vestedCoin <- NewCoin (Denom ovc) vestedAmt ;
         Ok (Plus vestedCoins [vestedCoin]))
      ov acc = Ok res.
Proof.
  induction ov as [|c rest IH]; intros acc H.
  - eexists. reflexivity.
  - cbn [rangeR]. cbv zeta. fold (vestedAmt s (Amount c)).
    rewrite (NewCoin_Ok _ _ (Forall_inv H)). cbn [bindR].
    apply IH. apply (Forall_inv_tail H).
Qed.

Lemma vested_amount_nonneg (s : Dec) ov d :
  Forall (fun c => 0 <= vestedAmt s (Amount c)) ov ->
  0 <= vestedAmt s (AmountOf ov d).
Proof.
  intros H. destruct (Z.eq_dec (AmountOf ov d) 0) as [E|E].
  - rewrite E, vestedAmt_zero. lia.
  - destruct (AmountOf_In _ _ E) as (c & Hin & _ & Ha).
    rewrite Forall_forall in H. rewrite <- Ha. apply H, Hin.
Qed.

Lemma GetVestedCoins_early cva blockTime :
  Unix blockTime <= Unix (startTime cva) ->
  GetVestedCoins cva blockTime = Ok [].
Proof.
  unfold GetVestedCoins. intros H.
  destruct (Unix blockTime <=? Unix (startTime cva)) eqn:E; [reflexivity|].
  apply Z.leb_gt in E. lia.
Qed.

(** What a successful [GetVestedCoins] returns after the start time. *)
Lemma GetVestedCoins_inv cva blockTime vested :
  IsValid (cvaOriginalVesting cva) = true ->
  Unix (startTime cva) < Unix blockTime ->
  GetVestedCoins cva blockTime = Ok vested ->
  let x := sub64 (Unix blockTime) (Unix (startTime cva)) in
  let y := sub64 (Unix (cvaEndTime cva)) (Unix (startTime cva)) in
  y <> 0 /\ IsValid vested = true
  /\ forall d,
       AmountOf vested d
       = vestedAmt (scalar x y) (AmountOf (cvaOriginalVesting cva) d)
       /\ 0 <= AmountOf vested d.
Proof.
  intros Hov Ht H x y. unfold GetVestedCoins in H.
  destruct (Unix blockTime <=? Unix (startTime cva)) eqn:E;
    [apply Z.leb_le in E; lia|].
  fold x y in H.
  destruct (Quo (NewDec x) (NewDec y)) as [s|e] eqn:Es; [|discriminate].
  apply Quo_inv in Es. destruct Es as [Hy Es]. fold (scalar x y) in Es.
  subst s. simpl in H.
  apply (vested_loop_inv (scalar x y)) in H;
    [|apply IsValid_ascending, Hov | constructor | constructor].
  destruct H as (Hres & Hnz & Hamt & Hall).
  assert (Hd : forall d,
    AmountOf vested d
    = vestedAmt (scalar x y) (AmountOf (cvaOriginalVesting cva) d)
    /\ 0 <= AmountOf vested d).
  { intros d. rewrite Hamt. simpl. split; [reflexivity|].
    apply vested_amount_nonneg, Hall. }
  split; [exact Hy|]. split; [|exact Hd].
  apply IsValid_of_amounts; [assumption | assumption |].
  intros d. apply Hd.
Qed.

Lemma GetVestedCoins_valid cva blockTime vested :
  IsValid (cvaOriginalVesting cva) = true ->
  GetVestedCoins cva blockTime = Ok vested ->
  IsValid vested = true.
Proof.
  intros Hov H.
  destruct (Z_le_gt_dec (Unix blockTime) (Unix (startTime cva))) as [Hle|Hgt].
  - rewrite GetVestedCoins_early in H by exact Hle. injection H as <-.
    reflexivity.
  - apply GetVestedCoins_inv in H; [|assumption|lia]. apply H.
Qed.

(** With a positive duration the loop never meets a negative amount. *)
Lemma GetVestedCoins_ok cva blockTime :
  IsValid (cvaOriginalVesting cva) = true ->
  Unix (startTime cva) < Unix blockTime ->
  0 <= sub64 (Unix blockTime) (Unix (startTime cva)) ->
  0 < sub64 (Unix (cvaEndTime cva)) (Unix (startTime cva)) ->
  exists vested, GetVestedCoins cva blockTime = Ok vested.
Proof.
  unfold GetVestedCoins. intros Hov Ht Hx Hy.
  destruct (Unix blockTime <=? Unix (startTime cva)) eqn:E;
    [apply Z.leb_le in E; lia|].
  rewrite Quo_Ok by lia. simpl.
  apply (vested_loop_ok
           (scalar (sub64 (Unix blockTime) (Unix (startTime cva)))
                   (sub64 (Unix (cvaEndTime cva)) (Unix (startTime cva))))).
  apply IsValid_spec in Hov. destruct Hov as [_ Hpos].
  eapply Forall_impl; [|exact Hpos]. simpl. intros c Hc.
  apply vestedAmt_nonneg; [lia|]. apply scalar_nonneg; assumption.
Qed.

End VestingFacts.

(** ** Adding and subtracting one coin *)

Module SingleCoin.
Import sdk CoinFacts.

Lemma AmountOf_one c d : AmountOf [c] d = only (Denom c) (Amount c) d.
Proof. reflexivity. Qed.

Lemma IsValid_one c : 0 < Amount c -> IsValid [c] = true.
Proof.
  intros H. simpl. unfold IsPositive. rewrite andb_true_r. apply Z.ltb_lt, H.
Qed.

Lemma Plus_one a c :
  IsValid a = true -> 0 < Amount c ->
  IsValid (Plus a [c]) = true
  /\ forall d, AmountOf (Plus a [c]) d = AmountOf a d + only (Denom c) (Amount c) d.
Proof.
  intros Ha Hc. split.
  - apply IsValid_Plus; [exact Ha | apply IsValid_one, Hc].
  - intros d. rewrite AmountOf_Plus, AmountOf_one;
      [reflexivity | apply IsValid_ascending, Ha | apply ascending_single].
Qed.

Lemma Minus_one_Ok a c :
  IsValid a = true -> 0 <= Amount c -> Amount c <= AmountOf a (Denom c) ->
  exists diff,
    Minus a [c] = Ok diff /\ IsValid diff = true
    /\ forall d, AmountOf diff d = AmountOf a d - only (Denom c) (Amount c) d.
Proof.
  intros Ha Hc Hle.
  pose proof (IsValid_ascending _ Ha) as Sa.
  destruct (Minus_succeeds a [c] Sa (ascending_single c)) as [diff Hd].
  { intros d. rewrite AmountOf_one. unfold only.
    destruct (String.eqb (Denom c) d) eqn:E.
    - apply String.eqb_eq in E. subst d. exact Hle.
    - apply IsValid_nonneg, Ha. }
  exists diff. split; [exact Hd|].
  destruct (Minus_Ok _ _ _ Sa (ascending_single c) Hd) as [Hv Hamt].
  split; [exact Hv|]. intros d. rewrite Hamt, AmountOf_one. reflexivity.
Qed.

Lemma Minus_one_Err a c :
  ascending a -> AmountOf a (Denom c) < Amount c ->
  Minus a [c] = Err NegativeResult.
Proof.
  intros Sa H. apply (Minus_fails a [c] (Denom c) Sa (ascending_single c)).
  simpl. rewrite String.eqb_refl. exact H.
Qed.

Lemma only_same denom delta : only denom delta denom = delta.
Proof. unfold only. rewrite String.eqb_refl. reflexivity. Qed.

Lemma only_other denom delta d : denom <> d -> only denom delta d = 0.
Proof.
  unfold only. intros H. apply String.eqb_neq in H. rewrite H. reflexivity.
Qed.

End SingleCoin.

(** ** One coin of an undelegation or of a delegation *)

Section TrackingSteps.
Import sdk CoinFacts SingleCoin.
Local Open Scope receiver_scope.

Lemma fixedFields_refl cva : fixedFields cva cva.
Proof. repeat split. Qed.

Lemma fixedFields_trans a b c :
  fixedFields a b -> fixedFields b c -> fixedFields a c.
Proof.
  unfold fixedFields. intros (A1 & A2 & A3 & A4 & A5 & A6 & A7)
    (B1 & B2 & B3 & B4 & B5 & B6 & B7).
  repeat split; congruence.
Qed.

(** Taking [x] out of [delegatedFree]. *)
Lemma takeFree_Done denom x cva :
  IsValid (cvaDelegatedFree cva) = true ->
  0 <= x <= AmountOf (cvaDelegatedFree cva) denom ->
  exists newFree,
    (if negb (x =? 0) then
       xCoin <~ liftR (NewCoin denom x) ;;
       df <~ gets cvaDelegatedFree ;;
       newFree <~ liftR (Minus df [xCoin]) ;;
       modify (fun cva => assignDelegatedFree cva newFree)
     else ret tt) cva
    = Done tt (assignDelegatedFree cva newFree)
    /\ IsValid newFree = true
    /\ forall d,
         AmountOf newFree d = AmountOf (cvaDelegatedFree cva) d - only denom x d.
Proof.
  intros Hdf Hx. destruct (x =? 0) eqn:E; simpl.
  - apply Z.eqb_eq in E. subst x. exists (cvaDelegatedFree cva).
    split; [|split; [exact Hdf|]].
    + unfold ret. destruct cva as [[ba ov df et] dv st]. reflexivity.
    + intros d. unfold only. destruct (String.eqb denom d); lia.
  - unfold bind, liftR, gets, modify.
    rewrite NewCoin_Ok by lia.
    destruct (Minus_one_Ok (cvaDelegatedFree cva)
                {| Denom := denom; Amount := x |} Hdf) as (diff & Hm & Hv & Ha);
      simpl; [lia | lia |].
    rewrite Hm. exists diff. auto.
Qed.

(** Taking [y] out of [delegatedVesting]. *)
Lemma takeVesting_Done denom y cva :
  IsValid (delegatedVesting cva) = true ->
  0 <= y <= AmountOf (delegatedVesting cva) denom ->
  exists newVesting,
    (if negb (y =? 0) then
       yCoin <~ liftR (NewCoin denom y) ;;
       dv <~ gets delegatedVesting ;;
       newVesting <~ liftR (Minus dv [yCoin]) ;;
       modify (fun cva => assignDelegatedVesting cva newVesting)
     else ret tt) cva
    = Done tt (assignDelegatedVesting cva newVesting)
    /\ IsValid newVesting = true
    /\ forall d,
         AmountOf newVesting d = AmountOf (delegatedVesting cva) d - only denom y d.
Proof.
  intros Hdv Hy. destruct (y =? 0) eqn:E; simpl.
  - apply Z.eqb_eq in E. subst y. exists (delegatedVesting cva).
    split; [|split; [exact Hdv|]].
    + unfold ret. destruct cva as [bva dv st]. reflexivity.
    + intros d. unfold only. destruct (String.eqb denom d); lia.
  - unfold bind, liftR, gets, modify.
    rewrite NewCoin_Ok by lia.
    destruct (Minus_one_Ok (delegatedVesting cva)
                {| Denom := denom; Amount := y |} Hdv) as (diff & Hm & Hv & Ha);
      simpl; [lia | lia |].
    rewrite Hm. exists diff. auto.
Qed.

Lemma takeVesting_Panic denom y cva :
  IsValid (delegatedVesting cva) = true ->
  AmountOf (delegatedVesting cva) denom < y ->
  (if negb (y =? 0) then
     yCoin <~ liftR (NewCoin denom y) ;;
     dv <~ gets delegatedVesting ;;
     newVesting <~ liftR (Minus dv [yCoin]) ;;
     modify (fun cva => assignDelegatedVesting cva newVesting)
   else ret tt) cva
  = Panic NegativeResult cva.
Proof.
  intros Hdv Hy.
  pose proof (IsValid_nonneg _ denom Hdv) as H0.
  destruct (y =? 0) eqn:E; [apply Z.eqb_eq in E; lia|]. simpl.
  unfold bind, liftR, gets, modify.
  rewrite NewCoin_Ok by lia.
  rewrite (Minus_one_Err (delegatedVesting cva) {| Denom := denom; Amount := y |});
    [reflexivity | apply IsValid_ascending, Hdv | simpl; lia].
Qed.


(** One coin of [TrackUndelegation] whose vesting part is covered. *)
Lemma trackUndelegationCoin_Done bc coin cva :
  0 < Amount coin ->
  IsValid (cvaDelegatedFree cva) = true ->
  IsValid (delegatedVesting cva) = true ->
  Amount coin - Z.min (AmountOf (cvaDelegatedFree cva) (Denom coin)) (Amount coin)
    <= AmountOf (delegatedVesting cva) (Denom coin) ->
  exists cva',
    trackUndelegationCoin bc coin cva = Done tt cva'
    /\ fixedFields cva cva'
    /\ cvaGetCoins cva' = Plus bc [coin]
    /\ IsValid (cvaDelegatedFree cva') = true
    /\ IsValid (delegatedVesting cva') = true
    /\ (forall d,
          AmountOf (cvaDelegatedFree cva') d
          = AmountOf (cvaDelegatedFree cva) d
            - only (Denom coin)
                (Z.min (AmountOf (cvaDelegatedFree cva) (Denom coin))
                       (Amount coin)) d)
    /\ (forall d,
          AmountOf (delegatedVesting cva') d
          = AmountOf (delegatedVesting cva) d
            - only (Denom coin)
                (Amount coin
                 - Z.min (AmountOf (cvaDelegatedFree cva) (Denom coin))
                         (Amount coin)) d).
Proof.
  intros Hpos Hdf Hdv Hy.
  pose proof (IsValid_nonneg _ (Denom coin) Hdf) as Hdf0.
  unfold trackUndelegationCoin.
  destruct (Amount coin =? 0) eqn:E0; [apply Z.eqb_eq in E0; lia|].
  unfold bind at 1. unfold gets at 1. unfold MinInt.
  set (x := Z.min (AmountOf (cvaDelegatedFree cva) (Denom coin)) (Amount coin))
    in *.
  unfold bind at 1.
  destruct (takeFree_Done (Denom coin) x cva Hdf) as (nf & -> & Hnf & Hnfa);
    [lia|].
  unfold bind at 1.
  destruct (takeVesting_Done (Denom coin) (Amount coin - x)
              (assignDelegatedFree cva nf)) as (nv & -> & Hnv & Hnva);
    [exact Hdv | simpl; lia |].
  unfold modify. eexists. split; [reflexivity|].
  simpl. repeat split; auto.
Qed.

(** One coin of [TrackUndelegation] whose vesting part is not covered:
    the subtraction from [delegatedVesting] panics, after [delegatedFree]
    was assigned. *)
Lemma trackUndelegationCoin_Panic bc coin cva :
  0 < Amount coin ->
  IsValid (cvaDelegatedFree cva) = true ->
  IsValid (delegatedVesting cva) = true ->
  AmountOf (delegatedVesting cva) (Denom coin)
    < Amount coin
      - Z.min (AmountOf (cvaDelegatedFree cva) (Denom coin)) (Amount coin) ->
  exists newFree,
    trackUndelegationCoin bc coin cva
    = Panic NegativeResult (assignDelegatedFree cva newFree)
    /\ forall d,
         AmountOf newFree d
         = AmountOf (cvaDelegatedFree cva) d
           - only (Denom coin)
               (Z.min (AmountOf (cvaDelegatedFree cva) (Denom coin))
                      (Amount coin)) d.
Proof.
  intros Hpos Hdf Hdv Hy.
  pose proof (IsValid_nonneg _ (Denom coin) Hdf) as Hdf0.
  unfold trackUndelegationCoin.
  destruct (Amount coin =? 0) eqn:E0; [apply Z.eqb_eq in E0; lia|].
  unfold bind at 1. unfold gets at 1. unfold MinInt.
  set (x := Z.min (AmountOf (cvaDelegatedFree cva) (Denom coin)) (Amount coin))
    in *.
  unfold bind at 1.
  destruct (takeFree_Done (Denom coin) x cva Hdf) as (nf & -> & Hnf & Hnfa);
    [lia|].
  unfold bind at 1.
  rewrite (takeVesting_Panic (Denom coin) (Amount coin - x)
             (assignDelegatedFree cva nf)); [|exact Hdv | simpl; lia].
  exists nf. auto.
Qed.

(** The denominations of a sequence in normal form differ pairwise. *)
Lemma IsValid_cons_inv c rest :
  IsValid (c :: rest) = true ->
  0 < Amount c /\ IsValid rest = true
  /\ forall c', In c' rest -> Denom c <> Denom c'.
Proof.
  intros H. apply IsValid_spec in H. destruct H as [Hs Hp].
  split; [apply (Forall_inv Hp)|]. split.
  - apply IsValid_spec. split; [apply (ascending_tail _ _ Hs)|].
    apply (Forall_inv_tail Hp).
  - intros c' Hin. apply dlt_neq.
    pose proof (ascending_head _ _ Hs) as Ha. unfold above in Ha.
    rewrite Forall_forall in Ha. apply Ha, Hin.
Qed.

(** The loop of [TrackUndelegation] panics at the first overdrawn coin:
    [delegatedFree] of its denomination is already reduced, and
    [delegatedVesting] of its denomination is as before the call. *)
Lemma undelegation_loop_Panic bc amount : forall cva,
  IsValid amount = true ->
  IsValid (cvaDelegatedFree cva) = true ->
  IsValid (delegatedVesting cva) = true ->
  (exists coin, In coin amount /\ overdrawn cva coin) ->
  exists cva' coin,
    rangeM (trackUndelegationCoin bc) amount cva = Panic NegativeResult cva'
    /\ fixedFields cva cva'
    /\ In coin amount /\ overdrawn cva coin
    /\ AmountOf (cvaDelegatedFree cva') (Denom coin)
       = AmountOf (cvaDelegatedFree cva) (Denom coin)
         - Z.min (AmountOf (cvaDelegatedFree cva) (Denom coin)) (Amount coin)
    /\ AmountOf (delegatedVesting cva') (Denom coin)
       = AmountOf (delegatedVesting cva) (Denom coin).
Proof.
  induction amount as [|c rest IH]; intros cva Hamt Hdf Hdv (coin & Hin & Hover).
  - contradiction.
  - destruct (IsValid_cons_inv _ _ Hamt) as (Hpos & Hrest & Hdiff).
    simpl. unfold bind.
    destruct (Z_lt_le_dec
                (AmountOf (delegatedVesting cva) (Denom c))
                (Amount c - Z.min (AmountOf (cvaDelegatedFree cva) (Denom c))
                                  (Amount c))) as [Hc|Hc].
    + destruct (trackUndelegationCoin_Panic bc c cva Hpos Hdf Hdv Hc)
        as (nf & -> & Hnf).
      exists (assignDelegatedFree cva nf), c.
      split; [reflexivity|]. split; [repeat split|].
      split; [left; reflexivity|]. split; [exact Hc|].
      simpl. rewrite Hnf, only_same. split; reflexivity.
    + destruct (trackUndelegationCoin_Done bc c cva Hpos Hdf Hdv Hc)
        as (cva1 & -> & Hfix & _ & Hdf1 & Hdv1 & Hfa & Hva).
      destruct Hin as [->|Hin]; [unfold overdrawn in Hover; lia|].
      destruct (IH cva1 Hrest Hdf1 Hdv1)
        as (cva' & coin' & Hrun & Hfix' & Hin' & Hover' & Hf' & Hv').
      * exists coin. split; [exact Hin|]. unfold overdrawn in *.
        rewrite Hfa, Hva, !only_other by (apply Hdiff, Hin). lia.
      * pose proof (Hdiff _ Hin') as Hne.
        exists cva', coin'. split; [exact Hrun|].
        split; [eapply fixedFields_trans; eassumption|].
        split; [right; exact Hin'|].
        unfold overdrawn in *.
        rewrite Hfa, Hva, !only_other in Hover' by exact Hne.
        rewrite Hfa, !only_other in Hf' by exact Hne.
        rewrite Hva, !only_other in Hv' by exact Hne.
        split; [lia|]. split; lia.
Qed.

End TrackingSteps.

(** ** The loops of the tracking calls *)

Section TrackingLoops.
Context {R : sdk.Rounding}.
Import sdk CoinFacts SingleCoin.
Local Open Scope receiver_scope.

(** Adding [x] to [delegatedVesting]. *)
Lemma addVesting_Done denom x cva :
  IsValid (delegatedVesting cva) = true -> 0 <= x ->
  exists newVesting,
    (if negb (x =? 0) then
       xCoin <~ liftR (NewCoin denom x) ;;
       modify (fun cva =>
         assignDelegatedVesting cva (Plus (delegatedVesting cva) [xCoin]))
     else ret tt) cva
    = Done tt (assignDelegatedVesting cva newVesting)
    /\ IsValid newVesting = true
    /\ forall d,
         AmountOf newVesting d = AmountOf (delegatedVesting cva) d + only denom x d.
Proof.
  intros Hdv Hx. destruct (x =? 0) eqn:E; simpl.
  - apply Z.eqb_eq in E. subst x. exists (delegatedVesting cva).
    split; [|split; [exact Hdv|]].
    + unfold ret. destruct cva as [bva dv st]. reflexivity.
    + intros d. unfold only. destruct (String.eqb denom d); lia.
  - apply Z.eqb_neq in E. unfold bind, liftR, modify.
    rewrite NewCoin_Ok by lia.
    destruct (Plus_one (delegatedVesting cva) {| Denom := denom; Amount := x |} Hdv)
      as [Hv Ha]; [simpl; lia|].
    eexists. split; [reflexivity|]. split; [exact Hv | exact Ha].
Qed.

(** Adding [y] to [delegatedFree]. *)
Lemma addFree_Done denom y cva :
  IsValid (cvaDelegatedFree cva) = true -> 0 <= y ->
  exists newFree,
    (if negb (y =? 0) then
       yCoin <~ liftR (NewCoin denom y) ;;
       modify (fun cva =>
         assignDelegatedFree cva (Plus (cvaDelegatedFree cva) [yCoin]))
     else ret tt) cva
    = Done tt (assignDelegatedFree cva newFree)
    /\ IsValid newFree = true
    /\ forall d,
         AmountOf newFree d = AmountOf (cvaDelegatedFree cva) d + only denom y d.
Proof.
  intros Hdf Hy. destruct (y =? 0) eqn:E; simpl.
  - apply Z.eqb_eq in E. subst y. exists (cvaDelegatedFree cva).
    split; [|split; [exact Hdf|]].
    + unfold ret. destruct cva as [[ba ov df et] dv st]. reflexivity.
    + intros d. unfold only. destruct (String.eqb denom d); lia.
  - apply Z.eqb_neq in E. unfold bind, liftR, modify.
    rewrite NewCoin_Ok by lia.
    destruct (Plus_one (cvaDelegatedFree cva) {| Denom := denom; Amount := y |} Hdf)
      as [Hv Ha]; [simpl; lia|].
    eexists. split; [reflexivity|]. split; [exact Hv | exact Ha].
Qed.

(** One coin of [TrackDelegation] that the base coins [bc] cover. *)
Lemma trackDelegationCoin_Done bc v coin cva :
  0 < Amount coin -> Amount coin <= AmountOf bc (Denom coin) ->
  IsValid bc = true ->
  IsValid (delegatedVesting cva) = true ->
  IsValid (cvaDelegatedFree cva) = true ->
  exists cva',
    trackDelegationCoin bc v coin cva = Done tt cva'
    /\ fixedFields cva cva'
    /\ Minus bc [coin] = Ok (cvaGetCoins cva')
    /\ IsValid (delegatedVesting cva') = true
    /\ IsValid (cvaDelegatedFree cva') = true
    /\ (forall d,
          AmountOf (delegatedVesting cva') d
          = AmountOf (delegatedVesting cva) d
            + only (Denom coin)
                (Z.min (Z.max (AmountOf v (Denom coin)
                               - AmountOf (delegatedVesting cva) (Denom coin)) 0)
                       (Amount coin)) d)
    /\ (forall d,
          AmountOf (cvaDelegatedFree cva') d
          = AmountOf (cvaDelegatedFree cva) d
            + only (Denom coin)
                (Amount coin
                 - Z.min (Z.max (AmountOf v (Denom coin)
                                 - AmountOf (delegatedVesting cva) (Denom coin)) 0)
                         (Amount coin)) d).
Proof.
  intros Hpos Hcov Hbc Hdv Hdf.
  unfold trackDelegationCoin.
  destruct (Amount coin =? 0) eqn:E0; [apply Z.eqb_eq in E0; lia|].
  destruct (AmountOf bc (Denom coin) <? Amount coin) eqn:E1;
    [apply Z.ltb_lt in E1; lia|].
  cbn [orb].
  unfold bind at 1. unfold gets at 1. unfold MinInt, MaxInt, ZeroInt.
  set (x := Z.min (Z.max (AmountOf v (Denom coin)
                          - AmountOf (delegatedVesting cva) (Denom coin)) 0)
                  (Amount coin)) in *.
  unfold bind at 1.
  destruct (addVesting_Done (Denom coin) x cva Hdv) as (nv & -> & Hnv & Hnva);
    [lia|].
  unfold bind at 1.
  destruct (addFree_Done (Denom coin) (Amount coin - x)
              (assignDelegatedVesting cva nv)) as (nf & -> & Hnf & Hnfa);
    [exact Hdf | lia |].
  destruct (Minus_one_Ok bc coin Hbc) as (diff & Hm & _ & _); [lia | lia |].
  unfold bind, liftR, modify. rewrite Hm.
  eexists. split; [reflexivity|]. simpl. repeat split; auto.
Qed.

Lemma trackDelegationCoin_skip bc v coin cva :
  Amount coin = 0 \/ AmountOf bc (Denom coin) < Amount coin ->
  trackDelegationCoin bc v coin cva = Done tt cva.
Proof.
  intros H. unfold trackDelegationCoin.
  destruct (Amount coin =? 0) eqn:E0; [reflexivity|].
  destruct (AmountOf bc (Denom coin) <? Amount coin) eqn:E1; [reflexivity|].
  apply Z.eqb_neq in E0. apply Z.ltb_ge in E1. lia.
Qed.

Lemma AmountOf_cons_ascending c rest d :
  ascending (c :: rest) ->
  AmountOf (c :: rest) d = only (Denom c) (Amount c) d + AmountOf rest d.
Proof.
  intros H. simpl. unfold only.
  destruct (String.eqb (Denom c) d) eqn:E; [|lia].
  apply String.eqb_eq in E. subst d.
  rewrite (above_AmountOf _ _ (ascending_head _ _ H)). lia.
Qed.

Lemma lastCoin_cons c c' rest : lastCoin (c :: c' :: rest) = lastCoin (c' :: rest).
Proof. reflexivity. Qed.

(** The loop of [TrackDelegation] over an [amount] that [bc] covers. *)
Lemma delegation_loop bc v amount : forall cva,
  IsValid amount = true -> IsValid bc = true ->
  (forall c, In c amount -> Amount c <= AmountOf bc (Denom c)) ->
  IsValid (delegatedVesting cva) = true ->
  IsValid (cvaDelegatedFree cva) = true ->
  exists cva',
    rangeM (trackDelegationCoin bc v) amount cva = Done tt cva'
    /\ fixedFields cva cva'
    /\ IsValid (delegatedVesting cva') = true
    /\ IsValid (cvaDelegatedFree cva') = true
    /\ (forall d,
          AmountOf (delegatedVesting cva) d <= AmountOf (delegatedVesting cva') d
          /\ AmountOf (cvaDelegatedFree cva) d <= AmountOf (cvaDelegatedFree cva') d
          /\ AmountOf (delegatedVesting cva') d + AmountOf (cvaDelegatedFree cva') d
             = AmountOf (delegatedVesting cva) d + AmountOf (cvaDelegatedFree cva) d
               + AmountOf amount d)
    /\ (amount = [] -> cvaGetCoins cva' = cvaGetCoins cva)
    /\ (amount <> [] -> Minus bc [lastCoin amount] = Ok (cvaGetCoins cva')).
Proof.
  induction amount as [|c rest IH]; intros cva Hamt Hbc Hcov Hdv Hdf.
  - exists cva. split; [reflexivity|]. split; [apply fixedFields_refl|].
    repeat split; auto; try lia. simpl. unfold ZeroInt. lia. congruence.
  - destruct (IsValid_cons_inv _ _ Hamt) as (Hpos & Hrest & Hdiff).
    pose proof (IsValid_ascending _ Hamt) as Hasc.
    cbn [rangeM]. unfold bind.
    destruct (trackDelegationCoin_Done bc v c cva Hpos) as
      (cva1 & -> & Hfix & Hm & Hdv1 & Hdf1 & Hva & Hfa);
      [apply Hcov; left; reflexivity | assumption..|].
    destruct (IH cva1 Hrest Hbc) as
      (cva' & Hrun & Hfix' & Hdv' & Hdf' & Hsum & Hnil & Hlast);
      [intros c' Hc'; apply Hcov; right; exact Hc' | assumption..|].
    exists cva'. split; [exact Hrun|].
    split; [eapply fixedFields_trans; eassumption|].
    split; [exact Hdv'|]. split; [exact Hdf'|]. split; [|split].
    + intros d. specialize (Hsum d). rewrite Hva, Hfa in Hsum.
      rewrite (AmountOf_cons_ascending c rest d Hasc).
      unfold only in *. destruct (String.eqb (Denom c) d); lia.
    + discriminate.
    + intros _. destruct rest as [|c' rest'].
      * rewrite (Hnil eq_refl). exact Hm.
      * rewrite lastCoin_cons. apply Hlast. discriminate.
Qed.

(** The loop of [TrackUndelegation] when no coin is overdrawn. *)
Lemma undelegation_loop_Done bc amount : forall cva,
  IsValid amount = true ->
  IsValid (cvaDelegatedFree cva) = true ->
  IsValid (delegatedVesting cva) = true ->
  (forall c, In c amount -> ~ overdrawn cva c) ->
  exists cva',
    rangeM (trackUndelegationCoin bc) amount cva = Done tt cva'
    /\ fixedFields cva cva'
    /\ IsValid (cvaDelegatedFree cva') = true
    /\ IsValid (delegatedVesting cva') = true
    /\ (forall d,
          AmountOf (delegatedVesting cva') d + AmountOf (cvaDelegatedFree cva') d
          = AmountOf (delegatedVesting cva) d + AmountOf (cvaDelegatedFree cva) d
            - AmountOf amount d)
    /\ (amount = [] -> cvaGetCoins cva' = cvaGetCoins cva)
    /\ (amount <> [] -> cvaGetCoins cva' = Plus bc [lastCoin amount]).
Proof.
  induction amount as [|c rest IH]; intros cva Hamt Hdf Hdv Hcov.
  - exists cva. split; [reflexivity|]. split; [apply fixedFields_refl|].
    repeat split; auto. simpl. unfold ZeroInt. lia. congruence.
  - destruct (IsValid_cons_inv _ _ Hamt) as (Hpos & Hrest & Hdiff).
    pose proof (IsValid_ascending _ Hamt) as Hasc.
    cbn [rangeM]. unfold bind.
    destruct (trackUndelegationCoin_Done bc c cva Hpos Hdf Hdv) as
      (cva1 & -> & Hfix & Hc1 & Hdf1 & Hdv1 & Hfa & Hva).
    { pose proof (Hcov c (or_introl eq_refl)) as H. unfold overdrawn in H. lia. }
    destruct (IH cva1 Hrest Hdf1 Hdv1) as
      (cva' & Hrun & Hfix' & Hdf' & Hdv' & Hsum & Hnil & Hlast).
    { intros c' Hc'. pose proof (Hcov c' (or_intror Hc')) as H.
      unfold overdrawn in *.
      rewrite Hfa, Hva, !only_other by (apply Hdiff, Hc'). lia. }
    exists cva'. split; [exact Hrun|].
    split; [eapply fixedFields_trans; eassumption|].
    split; [exact Hdf'|]. split; [exact Hdv'|]. split; [|split].
    + intros d. specialize (Hsum d). rewrite Hva, Hfa in Hsum.
      rewrite (AmountOf_cons_ascending c rest d Hasc).
      unfold only in *. destruct (String.eqb (Denom c) d); lia.
    + discriminate.
    + intros _. destruct rest as [|c' rest'].
      * rewrite (Hnil eq_refl). exact Hc1.
      * rewrite lastCoin_cons. apply Hlast. discriminate.
Qed.

End TrackingLoops.

(** ** Spendable coins *)

Section SpendableFacts.
Context {R : sdk.Rounding}.
Import sdk CoinFacts SingleCoin.

(** The loop of [SpendableCoins] when no amount is negative. *)
Lemma spendable_loop (dv v : Coins) bc : forall acc,
  IsValid bc = true -> IsValid acc = true ->
  (forall c, In c bc -> AmountOf v (Denom c) <= Amount c + AmountOf dv (Denom c)) ->
  exists res,
    rangeR
      (fun spendableCoins coin =>
         let baseAmt := Amount coin in
         let delVestingAmt := AmountOf dv (Denom coin) in
         let vestingAmt := AmountOf v (Denom coin) in
         let min := MinInt (baseAmt + delVestingAmt - vestingAmt) baseAmt in
         try spendableCoin <- NewCoin (Denom coin) min ;
         if negb (IsZero spendableCoin)
         then Ok (Plus spendableCoins [spendableCoin])
         else Ok spendableCoins)
      bc acc = Ok res
    /\ IsValid res = true
    /\ forall d, AmountOf res d = AmountOf acc d + spendableAmount bc dv v d.
Proof.
  induction bc as [|c rest IH]; intros acc Hbc Hacc Hge.
  - exists acc. split; [reflexivity|]. split; [exact Hacc|].
    intros d. unfold spendableAmount. simpl. lia.
  - destruct (IsValid_cons_inv _ _ Hbc) as (Hpos & Hrest & Hdiff).
    pose proof (IsValid_ascending _ Hbc) as Hasc.
    pose proof (Hge c (or_introl eq_refl)) as Hc.
    cbn [rangeR]. cbv zeta. unfold MinInt.
    set (m := Z.min (Amount c + AmountOf dv (Denom c) - AmountOf v (Denom c))
                    (Amount c)).
    assert (Hm : 0 <= m) by (unfold m; lia).
    rewrite (NewCoin_Ok _ _ Hm). cbn [bindR]. unfold IsZero. cbn [Amount].
    assert (Hacc' : exists acc',
      (if negb (m =? 0)
       then Ok (Plus acc [{| Denom := Denom c; Amount := m |}])
       else Ok acc) = Ok acc'
      /\ IsValid acc' = true
      /\ forall d, AmountOf acc' d = AmountOf acc d + only (Denom c) m d).
    { destruct (m =? 0) eqn:E; cbn [negb].
      - apply Z.eqb_eq in E. exists acc. repeat split; auto.
        intros d. rewrite E. unfold only.
        destruct (String.eqb (Denom c) d); lia.
      - apply Z.eqb_neq in E.
        destruct (Plus_one acc {| Denom := Denom c; Amount := m |} Hacc)
          as [Hv Ha]; [simpl; lia|].
        eexists. split; [reflexivity|]. split; [exact Hv | exact Ha]. }
    destruct Hacc' as (acc' & -> & Hv' & Ha'). cbn [bindR].
    destruct (IH acc' Hrest Hv') as (res & Hrun & Hres & Hamt).
    { intros c' Hc'. apply Hge. right. exact Hc'. }
    exists res. split; [exact Hrun|]. split; [exact Hres|].
    intros d. rewrite Hamt, Ha'. unfold spendableAmount.
    rewrite (AmountOf_cons_ascending c rest d Hasc). unfold only.
    destruct (String.eqb (Denom c) d) eqn:E.
    + apply String.eqb_eq in E. subst d.
      rewrite (above_AmountOf _ _ (ascending_head _ _ Hasc)).
      rewrite !Z.add_0_r.
      destruct (Amount c =? 0) eqn:E0; [apply Z.eqb_eq in E0; lia|].
      fold m. lia.
    + rewrite !Z.add_0_l. lia.
Qed.

(** The loop of [SpendableCoins] panics at a negative amount. *)
Lemma spendable_loop_negative (dv v : Coins) bc : forall acc,
  (exists c, In c bc
             /\ Z.min (Amount c + AmountOf dv (Denom c) - AmountOf v (Denom c))
                      (Amount c) < 0) ->
  rangeR
    (fun spendableCoins coin =>
       let baseAmt := Amount coin in
       let delVestingAmt := AmountOf dv (Denom coin) in
       let vestingAmt := AmountOf v (Denom coin) in
       let min := MinInt (baseAmt + delVestingAmt - vestingAmt) baseAmt in
       try spendableCoin <- NewCoin (Denom coin) min ;
       if negb (IsZero spendableCoin)
       then Ok (Plus spendableCoins [spendableCoin])
       else Ok spendableCoins)
    bc acc = Err NegativeCoinAmount.
Proof.
  induction bc as [|c rest IH]; intros acc (c0 & Hin & Hneg).
  - contradiction.
  - cbn [rangeR]. cbv zeta. unfold MinInt.
    set (m := Z.min (Amount c + AmountOf dv (Denom c) - AmountOf v (Denom c))
                    (Amount c)).
    destruct (Z_lt_le_dec m 0) as [Hm|Hm].
    + rewrite (NewCoin_Err _ _ Hm). reflexivity.
    + rewrite (NewCoin_Ok _ _ Hm). cbn [bindR].
      destruct Hin as [->|Hin]; [unfold m in Hm; lia|].
      destruct (negb _); cbn [bindR]; apply IH; exists c0; auto.
Qed.

End SpendableFacts.

(** * The properties of the vesting account *)

Section Properties.
Context {R : sdk.Rounding}.
Import sdk CoinFacts DecFacts SingleCoin.
Local Open Scope receiver_scope.

Lemma TrackDelegation_unfold blockTime amount cva :
  TrackDelegation blockTime amount cva
  = match GetVestingCoins cva blockTime with
    | Ok v => rangeM (trackDelegationCoin (cvaGetCoins cva) v) amount cva
    | Err e => Panic e cva
    end.
Proof.
  unfold TrackDelegation, bind, gets, byValue, liftR.
  destruct (GetVestingCoins cva blockTime); reflexivity.
Qed.

Lemma TrackUndelegation_unfold amount cva :
  TrackUndelegation amount cva
  = rangeM (trackUndelegationCoin (cvaGetCoins cva)) amount cva.
Proof. reflexivity. Qed.

(** *** The schedule at its end *)

(** At [endTime] exactly, all of [originalVesting] is vested and nothing is
    vesting.  The source has no case for block times after [endTime]. *)
Lemma GetVestedCoins_at_endTime cva :
  IsValid (cvaOriginalVesting cva) = true ->
  int64 (Unix (cvaEndTime cva) - Unix (startTime cva)) ->
  Unix (startTime cva) < Unix (cvaEndTime cva) ->
  GetVestedCoins cva (cvaEndTime cva) = Ok (cvaOriginalVesting cva)
  /\ GetVestingCoins cva (cvaEndTime cva) = Ok [].
Proof.
  intros Hov Hfit Hlt.
  pose proof (wrap64_id _ Hfit) as Hy. fold (sub64 (Unix (cvaEndTime cva))
    (Unix (startTime cva))) in Hy.
  destruct (GetVestedCoins_ok cva (cvaEndTime cva) Hov Hlt) as [vested Hv];
    [rewrite Hy; lia | rewrite Hy; lia |].
  assert (E : vested = cvaOriginalVesting cva).
  { destruct (GetVestedCoins_inv cva _ vested Hov Hlt Hv) as (_ & Hval & Hamt).
    apply IsValid_ext; [exact Hval | exact Hov |].
    intros d. destruct (Hamt d) as [-> _].
    rewrite scalar_one by (rewrite Hy; lia). apply vestedAmt_one. }
  subst vested. split; [exact Hv|].
  unfold GetVestingCoins. rewrite Hv. cbn [bindR].
  pose proof (IsValid_ascending _ Hov) as Hasc.
  destruct (Minus_succeeds _ _ Hasc Hasc) as [diff Hd]; [intros d; lia|].
  rewrite Hd. f_equal.
  destruct (Minus_Ok _ _ _ Hasc Hasc Hd) as [Hval Hamt].
  apply IsValid_ext; [exact Hval | reflexivity |].
  intros d. rewrite Hamt. simpl. unfold ZeroInt. lia.
Qed.

(** Up to [endTime] the vesting coins are defined and are the part of
    [originalVesting] that is not vested. *)
Lemma GetVestingCoins_ok cva blockTime :
  IsValid (cvaOriginalVesting cva) = true ->
  timesFit cva blockTime ->
  Unix (startTime cva) < Unix (cvaEndTime cva) ->
  Unix blockTime <= Unix (cvaEndTime cva) ->
  exists vested v,
    GetVestedCoins cva blockTime = Ok vested
    /\ GetVestingCoins cva blockTime = Ok v
    /\ IsValid v = true
    /\ forall d,
         AmountOf v d = AmountOf (cvaOriginalVesting cva) d - AmountOf vested d
         /\ 0 <= AmountOf vested d <= AmountOf (cvaOriginalVesting cva) d.
Proof.
  intros Hov [Hx Hy] Hlt Hle.
  apply wrap64_id in Hx. apply wrap64_id in Hy.
  fold (sub64 (Unix blockTime) (Unix (startTime cva))) in Hx.
  fold (sub64 (Unix (cvaEndTime cva)) (Unix (startTime cva))) in Hy.
  pose proof (IsValid_ascending _ Hov) as Hasc.
  assert (Hvested : exists vested,
    GetVestedCoins cva blockTime = Ok vested /\ IsValid vested = true
    /\ forall d, 0 <= AmountOf vested d <= AmountOf (cvaOriginalVesting cva) d).
  { destruct (Z_le_gt_dec (Unix blockTime) (Unix (startTime cva))) as [Hb|Hb].
    - exists []. split; [apply GetVestedCoins_early, Hb|].
      split; [reflexivity|]. intros d. simpl. unfold ZeroInt.
      pose proof (IsValid_nonneg _ d Hov). lia.
    - destruct (GetVestedCoins_ok cva blockTime Hov) as [vested Hv];
        [lia | rewrite Hx; lia | rewrite Hy; lia |].
      exists vested. split; [exact Hv|].
      assert (Hb' : Unix (startTime cva) < Unix blockTime) by lia.
      destruct (GetVestedCoins_inv cva blockTime vested Hov Hb' Hv)
        as (_ & Hval & Hamt).
      split; [exact Hval|]. intros d. destruct (Hamt d) as [E H0].
      split; [exact H0|]. rewrite E.
      apply vestedAmt_le; [apply IsValid_nonneg, Hov|].
      apply scalar_le_one; rewrite ?Hx, ?Hy; lia. }
  destruct Hvested as (vested & Hv & Hval & Hbound).
  pose proof (IsValid_ascending _ Hval) as Hasc'.
  destruct (Minus_succeeds _ _ Hasc Hasc') as [v Hm];
    [intros d; apply Hbound|].
  exists vested, v. split; [exact Hv|].
  split; [unfold GetVestingCoins; rewrite Hv; exact Hm|].
  destruct (Minus_Ok _ _ _ Hasc Hasc' Hm) as [Hvv Hamt].
  split; [exact Hvv|]. intros d. split; [apply Hamt | apply Hbound].
Qed.

(** Once twice the duration has passed since [startTime], the vested amount
    of every denomination of [originalVesting] is at least twice the
    original amount, and [GetVestingCoins] panics in the subtraction. *)
Lemma GetVestingCoins_long_after_endTime cva blockTime d :
  IsValid (cvaOriginalVesting cva) = true ->
  timesFit cva blockTime ->
  Unix (startTime cva) < Unix (cvaEndTime cva) ->
  2 * (Unix (cvaEndTime cva) - Unix (startTime cva))
    <= Unix blockTime - Unix (startTime cva) ->
  0 < AmountOf (cvaOriginalVesting cva) d ->
  (exists vested,
     GetVestedCoins cva blockTime = Ok vested
     /\ 2 * AmountOf (cvaOriginalVesting cva) d <= AmountOf vested d)
  /\ GetVestingCoins cva blockTime = Err NegativeResult.
Proof.
  intros Hov [Hx Hy] Hlt Hlate Hd.
  apply wrap64_id in Hx. apply wrap64_id in Hy.
  fold (sub64 (Unix blockTime) (Unix (startTime cva))) in Hx.
  fold (sub64 (Unix (cvaEndTime cva)) (Unix (startTime cva))) in Hy.
  assert (Hb : Unix (startTime cva) < Unix blockTime) by lia.
  destruct (GetVestedCoins_ok cva blockTime Hov Hb) as [vested Hv];
    [rewrite Hx; lia | rewrite Hy; lia |].
  destruct (GetVestedCoins_inv cva blockTime vested Hov Hb Hv)
    as (_ & Hval & Hamt).
  assert (Hge : 2 * AmountOf (cvaOriginalVesting cva) d <= AmountOf vested d).
  { destruct (Hamt d) as [-> _]. rewrite Hx, Hy.
    rewrite <- vestedAmt_two. apply vestedAmt_mono; [lia|].
    rewrite <- (scalar_two (Unix (cvaEndTime cva) - Unix (startTime cva)))
      by lia.
    apply scalar_mono; lia. }
  split; [exists vested; auto|].
  unfold GetVestingCoins. rewrite Hv. cbn [bindR].
  apply (Minus_fails _ _ d);
    [apply IsValid_ascending, Hov | apply IsValid_ascending, Hval | lia].
Qed.

(** *** Monotonicity *)

(** C7.  For block times [t1 <= t2] the amount of every denomination
    returned by [GetVestedCoins] at [t1] is at most the one returned at
    [t2]; with a positive duration both calls return. *)
Theorem GetVestedCoins_monotone cva t1 t2 d :
  IsValid (cvaOriginalVesting cva) = true ->
  timesFit cva t1 -> timesFit cva t2 ->
  Unix t1 <= Unix t2 ->
  (forall vested1 vested2,
     GetVestedCoins cva t1 = Ok vested1 ->
     GetVestedCoins cva t2 = Ok vested2 ->
     AmountOf vested1 d <= AmountOf vested2 d)
  /\ (Unix (startTime cva) < Unix (cvaEndTime cva) ->
      exists vested1 vested2,
        GetVestedCoins cva t1 = Ok vested1
        /\ GetVestedCoins cva t2 = Ok vested2).
Proof.
  intros Hov [Hx1 Hy] [Hx2 _] Hle.
  apply wrap64_id in Hx1. apply wrap64_id in Hx2. apply wrap64_id in Hy.
  fold (sub64 (Unix t1) (Unix (startTime cva))) in Hx1.
  fold (sub64 (Unix t2) (Unix (startTime cva))) in Hx2.
  fold (sub64 (Unix (cvaEndTime cva)) (Unix (startTime cva))) in Hy.
  pose proof (IsValid_nonneg _ d Hov) as Hd.
  split.
  - intros vested1 vested2 H1 H2.
    destruct (Z_le_gt_dec (Unix t1) (Unix (startTime cva))) as [Hb1|Hb1].
    + rewrite GetVestedCoins_early in H1 by exact Hb1. injection H1 as <-.
      simpl. unfold ZeroInt.
      destruct (Z_le_gt_dec (Unix t2) (Unix (startTime cva))) as [Hb2|Hb2].
      * rewrite GetVestedCoins_early in H2 by exact Hb2. injection H2 as <-.
        simpl. unfold ZeroInt. lia.
      * apply GetVestedCoins_inv in H2; [|exact Hov | lia].
        destruct H2 as (_ & _ & H2). apply H2.
    + apply GetVestedCoins_inv in H1; [|exact Hov | lia].
      apply GetVestedCoins_inv in H2; [|exact Hov | lia].
      destruct H1 as (Hy0 & _ & H1). destruct H2 as (_ & _ & H2).
      destruct (H1 d) as [E1 P1]. destruct (H2 d) as [E2 P2].
      rewrite Hx1, Hy in E1. rewrite Hx2, Hy in E2. rewrite Hy in Hy0.
      destruct (Z_lt_le_dec 0 (Unix (cvaEndTime cva) - Unix (startTime cva)))
        as [Hpos|Hneg].
      * rewrite E1, E2. apply vestedAmt_mono; [exact Hd|].
        apply scalar_mono; lia.
      * assert (AmountOf vested1 d <= 0); [|lia].
        rewrite E1. apply vestedAmt_nonpos; [exact Hd|].
        apply scalar_nonpos; lia.
  - intros Hlt.
    assert (Hall : forall t,
      sub64 (Unix t) (Unix (startTime cva)) = Unix t - Unix (startTime cva) ->
      exists vested, GetVestedCoins cva t = Ok vested).
    { intros t Hx.
      destruct (Z_le_gt_dec (Unix t) (Unix (startTime cva))) as [Hb|Hb].
      - exists []. apply GetVestedCoins_early, Hb.
      - apply GetVestedCoins_ok; [exact Hov | lia | rewrite Hx; lia |].
        rewrite Hy. lia. }
    destruct (Hall t1 Hx1) as [vested1 H1].
    destruct (Hall t2 Hx2) as [vested2 H2].
    exists vested1, vested2. auto.
Qed.

(** *** Spendable coins *)

(** C1, as amended.  When the vesting coins are defined at [blockTime] and
    no denomination of the base coins has more vesting than base coins plus
    delegated vesting, [SpendableCoins] succeeds and returns, for each
    denomination [d] of the base coins, [min((BC + DV) - V, BC)], which is
    then the [min(max((BC + DV) - V, 0), BC)] of the claim and lies between
    0 and [BC]; the result is in normal form, so it has no zero amount. *)
Theorem SpendableCoins_amounts cva blockTime v :
  IsValid (cvaGetCoins cva) = true ->
  GetVestingCoins cva blockTime = Ok v ->
  (forall d, 0 < AmountOf (cvaGetCoins cva) d ->
     AmountOf v d
     <= AmountOf (cvaGetCoins cva) d + AmountOf (delegatedVesting cva) d) ->
  exists spendable,
    SpendableCoins cva blockTime = Ok spendable
    /\ IsValid spendable = true
    /\ forall d,
         (0 < AmountOf (cvaGetCoins cva) d ->
          AmountOf spendable d
          = Z.min (AmountOf (cvaGetCoins cva) d
                   + AmountOf (delegatedVesting cva) d - AmountOf v d)
                  (AmountOf (cvaGetCoins cva) d)
          /\ AmountOf spendable d
             = Z.min (Z.max (AmountOf (cvaGetCoins cva) d
                             + AmountOf (delegatedVesting cva) d
                             - AmountOf v d) 0)
                     (AmountOf (cvaGetCoins cva) d))
         /\ 0 <= AmountOf spendable d <= AmountOf (cvaGetCoins cva) d.
Proof.
  intros Hbc Hv Hge.
  pose proof (IsValid_ascending _ Hbc) as Hasc.
  destruct (spendable_loop (delegatedVesting cva) v (cvaGetCoins cva) [] Hbc
              eq_refl) as (res & Hrun & Hres & Hamt).
  { intros c Hc. pose proof (In_AmountOf _ _ Hasc Hc) as E.
    apply IsValid_spec in Hbc. destruct Hbc as [_ Hpos].
    unfold positive in Hpos. rewrite Forall_forall in Hpos.
    specialize (Hge (Denom c)). rewrite E in Hge. apply Hge, Hpos, Hc. }
  exists res. split.
  - unfold SpendableCoins. rewrite Hv. exact Hrun.
  - split; [exact Hres|]. intros d. rewrite Hamt.
    change (AmountOf [] d) with 0.
    pose proof (IsValid_nonneg _ d Hbc) as H0. specialize (Hge d).
    unfold spendableAmount.
    destruct (AmountOf (cvaGetCoins cva) d =? 0) eqn:E.
    + apply Z.eqb_eq in E. split; [intros; lia | lia].
    + apply Z.eqb_neq in E. split; [intros _; split; lia | lia].
Qed.

(** Without the condition on the vesting amount the loop meets a negative
    amount: the formula of the source has no clamp at zero. *)
Lemma SpendableCoins_negative cva blockTime v d :
  IsValid (cvaGetCoins cva) = true ->
  GetVestingCoins cva blockTime = Ok v ->
  0 < AmountOf (cvaGetCoins cva) d ->
  AmountOf (cvaGetCoins cva) d + AmountOf (delegatedVesting cva) d
    < AmountOf v d ->
  SpendableCoins cva blockTime = Err NegativeCoinAmount.
Proof.
  intros Hbc Hv Hpos Hlt.
  unfold SpendableCoins. rewrite Hv. cbn [bindR].
  apply spendable_loop_negative.
  destruct (AmountOf_In (cvaGetCoins cva) d) as (c & Hin & Hd & Ha); [lia|].
  exists c. split; [exact Hin|]. rewrite Hd, Ha. lia.
Qed.

(** *** Queries *)


End Properties.

(** ** Delegation and undelegation *)

Section Tracking.
Context {R : sdk.Rounding}.
Import sdk CoinFacts DecFacts SingleCoin.
Local Open Scope receiver_scope.

(** C4, as amended.  When for a denomination [d] the part of the
    undelegation that [delegatedFree] does not cover exceeds
    [delegatedVesting], [TrackUndelegation] panics with [NegativeResult].
    The fields that no tracking call assigns are as before the call.  The
    ledgers are as the loop left them at the panic: for the coin at which it
    panics, [delegatedFree] is already reduced by [min(DF, R)], and
    [delegatedVesting] is as before the call. *)
Theorem TrackUndelegation_overdrawn cva amount d :
  IsValid amount = true ->
  IsValid (cvaDelegatedFree cva) = true ->
  IsValid (delegatedVesting cva) = true ->
  AmountOf (delegatedVesting cva) d
    < AmountOf amount d
      - Z.min (AmountOf (cvaDelegatedFree cva) d) (AmountOf amount d) ->
  exists cva' coin,
    TrackUndelegation amount cva = Panic NegativeResult cva'
    /\ fixedFields cva cva'
    /\ In coin amount /\ overdrawn cva coin
    /\ AmountOf (cvaDelegatedFree cva') (Denom coin)
       = AmountOf (cvaDelegatedFree cva) (Denom coin)
         - Z.min (AmountOf (cvaDelegatedFree cva) (Denom coin)) (Amount coin)
    /\ AmountOf (delegatedVesting cva') (Denom coin)
       = AmountOf (delegatedVesting cva) (Denom coin).
Proof.
  intros Hamt Hdf Hdv Hover.
  rewrite TrackUndelegation_unfold.
  apply undelegation_loop_Panic; try assumption.
  pose proof (IsValid_nonneg _ d Hdf) as Hf0.
  pose proof (IsValid_nonneg _ d Hdv) as Hv0.
  destruct (AmountOf_In amount d) as (coin & Hin & Hd & Ha); [lia|].
  exists coin. split; [exact Hin|]. unfold overdrawn. rewrite Hd, Ha. exact Hover.
Qed.

(** A delegation of one coin that the base coins cover, at a block time at
    which the vesting coins are defined: the three ledgers move by [X],
    [D - X] and [D] in the denomination of the coin and in no other. *)
Lemma TrackDelegation_single cva blockTime v coin :
  ledgersValid cva ->
  GetVestingCoins cva blockTime = Ok v ->
  0 < Amount coin -> Amount coin <= AmountOf (cvaGetCoins cva) (Denom coin) ->
  let x := Z.min (Z.max (AmountOf v (Denom coin)
                         - AmountOf (delegatedVesting cva) (Denom coin)) 0)
                 (Amount coin) in
  exists cva',
    TrackDelegation blockTime [coin] cva = Done tt cva'
    /\ fixedFields cva cva'
    /\ ledgersValid cva'
    /\ forall d,
         AmountOf (delegatedVesting cva') d
         = AmountOf (delegatedVesting cva) d + only (Denom coin) x d
         /\ AmountOf (cvaDelegatedFree cva') d
            = AmountOf (cvaDelegatedFree cva) d
              + only (Denom coin) (Amount coin - x) d
         /\ AmountOf (cvaGetCoins cva') d
            = AmountOf (cvaGetCoins cva) d - only (Denom coin) (Amount coin) d.
Proof.
  intros (Hbc & Hdv & Hdf) Hv Hpos Hcov x.
  rewrite TrackDelegation_unfold, Hv. cbn [rangeM]. unfold bind.
  destruct (trackDelegationCoin_Done (cvaGetCoins cva) v coin cva Hpos Hcov
              Hbc Hdv Hdf) as (cva' & -> & Hfix & Hm & Hdv' & Hdf' & Hva & Hfa).
  exists cva'. split; [reflexivity|]. split; [exact Hfix|].
  pose proof (IsValid_ascending _ Hbc) as Hasc.
  destruct (Minus_Ok _ _ _ Hasc (ascending_single coin) Hm) as [Hbc' Hca].
  split; [repeat split; assumption|].
  intros d. split; [apply Hva|]. split; [apply Hfa|].
  rewrite Hca. reflexivity.
Qed.

(** A coin that is zero or that the base coins do not cover is skipped. *)
Lemma TrackDelegation_single_skip cva blockTime v coin :
  GetVestingCoins cva blockTime = Ok v ->
  Amount coin = 0 \/ AmountOf (cvaGetCoins cva) (Denom coin) < Amount coin ->
  TrackDelegation blockTime [coin] cva = Done tt cva.
Proof.
  intros Hv Hskip.
  rewrite TrackDelegation_unfold, Hv. cbn [rangeM]. unfold bind.
  rewrite trackDelegationCoin_skip by exact Hskip. reflexivity.
Qed.

(** The last coin of a non-empty sequence in normal form. *)
Lemma lastCoin_In amount : amount <> [] -> In (lastCoin amount) amount.
Proof.
  intros Hne. unfold lastCoin.
  destruct (exists_last Hne) as (l & a & E). rewrite E.
  rewrite last_last. apply in_or_app. right. left. reflexivity.
Qed.

Lemma IsValid_In_pos amount c : IsValid amount = true -> In c amount -> 0 < Amount c.
Proof.
  intros Hamt Hc. apply IsValid_spec in Hamt. destruct Hamt as [_ Hp].
  unfold positive in Hp. rewrite Forall_forall in Hp. apply Hp, Hc.
Qed.

(** What a delegation that returns does to [Q]: the ledgers of delegated
    coins grow by the whole [amount], and the base coins lose the last coin
    of [amount] only, because every iteration subtracts from the base coins
    read before the loop.  [Q] is conserved for every denomination when
    [amount] has one coin, and grows by the coins before the last when it
    has several. *)
Lemma TrackDelegation_Q cva blockTime v amount :
  ledgersValid cva ->
  GetVestingCoins cva blockTime = Ok v ->
  IsValid amount = true -> amount <> [] ->
  (forall d, AmountOf amount d <= AmountOf (cvaGetCoins cva) d) ->
  exists cva',
    TrackDelegation blockTime amount cva = Done tt cva'
    /\ forall d,
         Q cva' d
         = Q cva d + AmountOf amount d
           - only (Denom (lastCoin amount)) (Amount (lastCoin amount)) d.
Proof.
  intros (Hbc & Hdv & Hdf) Hv Hamt Hne Hcov.
  pose proof (IsValid_ascending _ Hamt) as Hasc.
  assert (Hcov' : forall c, In c amount ->
    Amount c <= AmountOf (cvaGetCoins cva) (Denom c)).
  { intros c Hc. rewrite <- (In_AmountOf _ _ Hasc Hc). apply Hcov. }
  rewrite TrackDelegation_unfold, Hv.
  destruct (delegation_loop (cvaGetCoins cva) v amount cva Hamt Hbc Hcov'
              Hdv Hdf)
    as (cva' & -> & _ & _ & _ & Hsum & _ & Hlast).
  exists cva'. split; [reflexivity|]. intros d.
  pose proof (IsValid_ascending _ Hbc) as Hascbc.
  destruct (Minus_Ok _ _ _ Hascbc (ascending_single _) (Hlast Hne))
    as [_ Hca].
  destruct (Hsum d) as (_ & _ & H3).
  unfold Q. rewrite Hca, AmountOf_one. lia.
Qed.

(** A delegation of one coin conserves [Q]. *)
Lemma TrackDelegation_single_Q cva blockTime v coin :
  ledgersValid cva ->
  GetVestingCoins cva blockTime = Ok v ->
  0 < Amount coin -> Amount coin <= AmountOf (cvaGetCoins cva) (Denom coin) ->
  exists cva',
    TrackDelegation blockTime [coin] cva = Done tt cva'
    /\ forall d, Q cva' d = Q cva d.
Proof.
  intros Hl Hv Hpos Hcov.
  destruct (TrackDelegation_Q cva blockTime v [coin] Hl Hv)
    as (cva' & Hrun & HQ).
  - apply IsValid_one, Hpos.
  - discriminate.
  - intros d. rewrite AmountOf_one. unfold only.
    destruct (String.eqb (Denom coin) d) eqn:E.
    + apply String.eqb_eq in E. subst d. exact Hcov.
    + destruct Hl as (Hbc & _). apply IsValid_nonneg, Hbc.
  - exists cva'. split; [exact Hrun|]. intros d. rewrite HQ.
    change (lastCoin [coin]) with coin. rewrite AmountOf_one. lia.
Qed.

(** What an undelegation that returns does to [Q]: the ledgers of delegated
    coins shrink by the whole [amount], and the base coins gain the last
    coin of [amount] only. *)
Lemma TrackUndelegation_Q cva amount :
  ledgersValid cva ->
  IsValid amount = true -> amount <> [] ->
  (forall c, In c amount -> ~ overdrawn cva c) ->
  exists cva',
    TrackUndelegation amount cva = Done tt cva'
    /\ forall d,
         Q cva' d
         = Q cva d - AmountOf amount d
           + only (Denom (lastCoin amount)) (Amount (lastCoin amount)) d.
Proof.
  intros (Hbc & Hdv & Hdf) Hamt Hne Hcov.
  rewrite TrackUndelegation_unfold.
  destruct (undelegation_loop_Done (cvaGetCoins cva) amount cva Hamt Hdf Hdv
              Hcov)
    as (cva' & -> & _ & _ & _ & Hsum & _ & Hlast).
  exists cva'. split; [reflexivity|]. intros d.
  destruct (Plus_one (cvaGetCoins cva) (lastCoin amount) Hbc) as [_ Hca].
  { apply (IsValid_In_pos amount); [exact Hamt | apply lastCoin_In, Hne]. }
  unfold Q. rewrite (Hlast Hne), Hca. specialize (Hsum d). lia.
Qed.

(** C8.  A delegation of a covered [amount] followed by the undelegation of
    the same [amount] leaves the base coins as they were, and leaves the sum
    of [delegatedVesting] and [delegatedFree] of every denomination as it
    was.  Both calls return when the vesting coins are defined at
    [blockTime]; otherwise the delegation panics before any assignment. *)
Theorem TrackDelegation_TrackUndelegation_roundtrip cva blockTime amount :
  ledgersValid cva ->
  IsValid amount = true ->
  (forall d, AmountOf amount d <= AmountOf (cvaGetCoins cva) d) ->
  let outcome :=
    (TrackDelegation blockTime amount ;;; TrackUndelegation amount) cva in
  cvaGetCoins (stateOf outcome) = cvaGetCoins cva
  /\ (forall d,
        AmountOf (delegatedVesting (stateOf outcome)) d
        + AmountOf (cvaDelegatedFree (stateOf outcome)) d
        = AmountOf (delegatedVesting cva) d + AmountOf (cvaDelegatedFree cva) d)
  /\ (forall v, GetVestingCoins cva blockTime = Ok v ->
        exists cva', outcome = Done tt cva').
Proof.
  intros (Hbc & Hdv & Hdf) Hamt Hcov outcome.
  assert (E : outcome
    = match GetVestingCoins cva blockTime with
      | Ok v =>
          match rangeM (trackDelegationCoin (cvaGetCoins cva) v) amount cva with
          | Done _ cva1 => TrackUndelegation amount cva1
          | Panic e cva1 => Panic e cva1
          end
      | Err e => Panic e cva
      end).
  { unfold outcome, bind. rewrite TrackDelegation_unfold.
    destruct (GetVestingCoins cva blockTime); reflexivity. }
  clearbody outcome. subst outcome.
  destruct (GetVestingCoins cva blockTime) as [v|e] eqn:Hv.
  2:{ cbn [stateOf]. split; [reflexivity|]. split; [reflexivity|].
      intros v' Hv'. discriminate. }
  pose proof (IsValid_ascending _ Hamt) as Hasc.
  assert (Hcov' : forall c, In c amount ->
    Amount c <= AmountOf (cvaGetCoins cva) (Denom c)).
  { intros c Hc. rewrite <- (In_AmountOf _ _ Hasc Hc). apply Hcov. }
  destruct (delegation_loop (cvaGetCoins cva) v amount cva Hamt Hbc Hcov'
              Hdv Hdf)
    as (cva1 & -> & Hfix1 & Hdv1 & Hdf1 & Hsum1 & Hnil1 & Hlast1).
  rewrite TrackUndelegation_unfold.
  destruct (undelegation_loop_Done (cvaGetCoins cva1) amount cva1 Hamt
              Hdf1 Hdv1)
    as (cva2 & Hrun & Hfix2 & Hdf2 & Hdv2 & Hsum2 & Hnil2 & Hlast2).
  { intros c Hc. unfold overdrawn.
    destruct (Hsum1 (Denom c)) as (H1 & H2 & H3).
    rewrite (In_AmountOf _ _ Hasc Hc) in H3.
    pose proof (IsValid_nonneg _ (Denom c) Hdv).
    pose proof (IsValid_nonneg _ (Denom c) Hdf). lia. }
  rewrite Hrun. cbn [stateOf]. split; [|split].
  - destruct amount as [|c0 rest].
    + rewrite (Hnil2 eq_refl). apply Hnil1. reflexivity.
    + assert (Hne : c0 :: rest <> []) by discriminate.
      specialize (Hlast1 Hne). specialize (Hlast2 Hne).
      pose proof (IsValid_In_pos _ _ Hamt (lastCoin_In _ Hne)) as Hpos.
      set (c := lastCoin (c0 :: rest)) in *.
      pose proof (IsValid_ascending _ Hbc) as Hascbc.
      destruct (Minus_Ok _ _ _ Hascbc (ascending_single c) Hlast1)
        as [Hval1 Hamt1].
      destruct (Plus_one (cvaGetCoins cva1) c Hval1 Hpos) as [Hval2 Hamt2].
      rewrite Hlast2. apply IsValid_ext; [exact Hval2 | exact Hbc |].
      intros d. rewrite Hamt2, Hamt1, AmountOf_one. lia.
  - intros d. rewrite Hsum2. destruct (Hsum1 d) as (_ & _ & H3). lia.
  - intros v' _. exists cva2. reflexivity.
Qed.

End Tracking.


(** * Further properties of the code *)

(** ** The schedule *)

Section ScheduleExtras.
Context {R : sdk.Rounding}.
Import sdk CoinFacts DecFacts SingleCoin.
Local Open Scope receiver_scope.

Lemma Minus_nil_r a : IsValid a = true -> Minus a [] = Ok a.
Proof.
  intros Ha. pose proof (IsValid_ascending _ Ha) as Hasc.
  destruct (Minus_succeeds a [] Hasc ascending_nil) as [diff Hd].
  { intros d. apply IsValid_nonneg, Ha. }
  rewrite Hd. f_equal.
  destruct (Minus_Ok _ _ _ Hasc ascending_nil Hd) as [Hv Hamt].
  apply IsValid_ext; [exact Hv | exact Ha |].
  intros d. rewrite Hamt. simpl. unfold ZeroInt. lia.
Qed.

(** The queries read the schedule and [originalVesting] only. *)
Lemma GetVestedCoins_fixedFields a b blockTime :
  fixedFields a b -> GetVestedCoins a blockTime = GetVestedCoins b blockTime.
Proof.
  intros (_ & _ & _ & _ & Hov & Het & Hst).
  unfold GetVestedCoins. rewrite Hov, Het, Hst. reflexivity.
Qed.

Lemma GetVestingCoins_fixedFields a b blockTime :
  fixedFields a b -> GetVestingCoins a blockTime = GetVestingCoins b blockTime.
Proof.
  intros H. unfold GetVestingCoins.
  rewrite (GetVestedCoins_fixedFields a b blockTime H).
  destruct H as (_ & _ & _ & _ & Hov & _). rewrite Hov. reflexivity.
Qed.

Lemma GetVestingCoins_early cva blockTime :
  IsValid (cvaOriginalVesting cva) = true ->
  Unix blockTime <= Unix (startTime cva) ->
  GetVestingCoins cva blockTime = Ok (cvaOriginalVesting cva).
Proof.
  intros Hov Hle. unfold GetVestingCoins.
  rewrite (GetVestedCoins_early cva blockTime Hle). cbn [bindR].
  apply Minus_nil_r, Hov.
Qed.

(** X1.  Up to [startTime] nothing is vested: [GetVestedCoins] returns no
    coins and [GetVestingCoins] returns [originalVesting], whatever
    [endTime] is. *)
Theorem nothing_vested_until_startTime cva blockTime :
  IsValid (cvaOriginalVesting cva) = true ->
  Unix blockTime <= Unix (startTime cva) ->
  GetVestedCoins cva blockTime = Ok []
  /\ GetVestingCoins cva blockTime = Ok (cvaOriginalVesting cva).
Proof.
  intros Hov Hle.
  split; [apply GetVestedCoins_early, Hle | apply GetVestingCoins_early];
    assumption.
Qed.

(** X2.  At [endTime] exactly, with a positive duration, all of
    [originalVesting] is vested and no coin is vesting. *)
Theorem all_vested_at_endTime cva :
  IsValid (cvaOriginalVesting cva) = true ->
  int64 (Unix (cvaEndTime cva) - Unix (startTime cva)) ->
  Unix (startTime cva) < Unix (cvaEndTime cva) ->
  GetVestedCoins cva (cvaEndTime cva) = Ok (cvaOriginalVesting cva)
  /\ GetVestingCoins cva (cvaEndTime cva) = Ok [].
Proof. apply GetVestedCoins_at_endTime. Qed.

(** X3.  Up to [endTime], with a positive duration, both queries return
    coins in normal form that split [originalVesting]: in every
    denomination the vested and the vesting amounts add up to the original
    amount, and neither is negative. *)
Theorem vested_and_vesting_split_originalVesting cva blockTime :
  IsValid (cvaOriginalVesting cva) = true ->
  timesFit cva blockTime ->
  Unix (startTime cva) < Unix (cvaEndTime cva) ->
  Unix blockTime <= Unix (cvaEndTime cva) ->
  exists vested vesting,
    GetVestedCoins cva blockTime = Ok vested
    /\ GetVestingCoins cva blockTime = Ok vesting
    /\ IsValid vested = true /\ IsValid vesting = true
    /\ forall d,
         AmountOf vested d + AmountOf vesting d
         = AmountOf (cvaOriginalVesting cva) d
         /\ 0 <= AmountOf vested d /\ 0 <= AmountOf vesting d.
Proof.
  intros Hov Hfit Hlt Hle.
  destruct (GetVestingCoins_ok cva blockTime Hov Hfit Hlt Hle)
    as (vested & v & Hvd & Hv & Hval & Hamt).
  exists vested, v. split; [exact Hvd|]. split; [exact Hv|].
  split; [eapply GetVestedCoins_valid; eassumption|]. split; [exact Hval|].
  intros d. destruct (Hamt d) as [E B]. lia.
Qed.

(** X4.  Whenever [GetVestedCoins] returns, at any block time, the coins
    are in normal form and have no denomination that [originalVesting]
    lacks. *)
Theorem GetVestedCoins_denominations cva blockTime vested :
  IsValid (cvaOriginalVesting cva) = true ->
  GetVestedCoins cva blockTime = Ok vested ->
  IsValid vested = true
  /\ forall d, AmountOf (cvaOriginalVesting cva) d = 0 -> AmountOf vested d = 0.
Proof.
  intros Hov Hv. split; [eapply GetVestedCoins_valid; eassumption|].
  intros d Hd.
  destruct (Z_le_gt_dec (Unix blockTime) (Unix (startTime cva))) as [Hb|Hb].
  - rewrite GetVestedCoins_early in Hv by exact Hb. injection Hv as <-.
    reflexivity.
  - assert (Hb' : Unix (startTime cva) < Unix blockTime) by lia.
    destruct (GetVestedCoins_inv cva blockTime vested Hov Hb' Hv)
      as (_ & _ & Hamt).
    destruct (Hamt d) as [-> _]. rewrite Hd. apply vestedAmt_zero.
Qed.

(** X5.  With [endTime] at the same second as [startTime], every query
    after [startTime] panics on the division by zero, also for an account
    without coins, and a delegation panics before it assigns a field. *)
Theorem zero_duration_panics cva blockTime amount :
  Unix (cvaEndTime cva) = Unix (startTime cva) ->
  Unix (startTime cva) < Unix blockTime ->
  GetVestedCoins cva blockTime = Err DivisionByZero
  /\ GetVestingCoins cva blockTime = Err DivisionByZero
  /\ SpendableCoins cva blockTime = Err DivisionByZero
  /\ TrackDelegation blockTime amount cva = Panic DivisionByZero cva.
Proof.
  intros Heq Hlt.
  assert (Hv : GetVestedCoins cva blockTime = Err DivisionByZero).
  { unfold GetVestedCoins.
    destruct (Unix blockTime <=? Unix (startTime cva)) eqn:E;
      [apply Z.leb_le in E; lia|].
    rewrite Heq. unfold sub64 at 2. rewrite Z.sub_diag.
    change (wrap64 0) with 0. rewrite Quo_zero. reflexivity. }
  assert (Hg : GetVestingCoins cva blockTime = Err DivisionByZero).
  { unfold GetVestingCoins. rewrite Hv. reflexivity. }
  split; [exact Hv|]. split; [exact Hg|]. split.
  - unfold SpendableCoins. rewrite Hg. reflexivity.
  - rewrite TrackDelegation_unfold, Hg. reflexivity.
Qed.

End ScheduleExtras.

(** ** Spendable coins *)

Section SpendableExtras.
Context {R : sdk.Rounding}.
Import sdk CoinFacts DecFacts SingleCoin.
Local Open Scope receiver_scope.

Lemma SpendableCoins_covered cva blockTime v :
  IsValid (cvaGetCoins cva) = true ->
  GetVestingCoins cva blockTime = Ok v ->
  coveredVesting cva v ->
  exists spendable,
    SpendableCoins cva blockTime = Ok spendable
    /\ IsValid spendable = true
    /\ forall d,
         AmountOf spendable d
         = spendableAmount (cvaGetCoins cva) (delegatedVesting cva) v d.
Proof.
  intros Hbc Hv Hge.
  pose proof (IsValid_ascending _ Hbc) as Hasc.
  destruct (spendable_loop (delegatedVesting cva) v (cvaGetCoins cva) [] Hbc
              eq_refl) as (res & Hrun & Hres & Hamt).
  { intros c Hc. pose proof (In_AmountOf _ _ Hasc Hc) as E.
    pose proof (IsValid_In_pos _ _ Hbc Hc) as Hpos.
    specialize (Hge (Denom c)). rewrite E in Hge. apply Hge, Hpos. }
  exists res. split; [unfold SpendableCoins; rewrite Hv; exact Hrun|].
  split; [exact Hres|]. intros d. rewrite Hamt. reflexivity.
Qed.

Lemma coveredVesting_dec cva v :
  IsValid (cvaGetCoins cva) = true ->
  coveredVesting cva v
  \/ exists d, 0 < AmountOf (cvaGetCoins cva) d
               /\ AmountOf (cvaGetCoins cva) d
                  + AmountOf (delegatedVesting cva) d < AmountOf v d.
Proof.
  intros Hbc. pose proof (IsValid_ascending _ Hbc) as Hasc.
  destruct (existsb
              (fun c => Amount c + AmountOf (delegatedVesting cva) (Denom c)
                        <? AmountOf v (Denom c)) (cvaGetCoins cva)) eqn:E.
  - right. apply existsb_exists in E. destruct E as (c & Hin & Hc).
    apply Z.ltb_lt in Hc. exists (Denom c).
    rewrite (In_AmountOf _ _ Hasc Hin).
    split; [apply (IsValid_In_pos _ _ Hbc Hin) | exact Hc].
  - left. intros d Hd.
    destruct (AmountOf_In (cvaGetCoins cva) d) as (c & Hin & Hdc & Ha); [lia|].
    assert (Hc : (Amount c + AmountOf (delegatedVesting cva) (Denom c)
                  <? AmountOf v (Denom c)) = false).
    { destruct (Amount c + AmountOf (delegatedVesting cva) (Denom c)
                <? AmountOf v (Denom c)) eqn:Ec; [|reflexivity].
      assert (Hex : existsb
                (fun c => Amount c + AmountOf (delegatedVesting cva) (Denom c)
                          <? AmountOf v (Denom c)) (cvaGetCoins cva) = true).
      { apply existsb_exists. exists c. auto. }
      congruence. }
    apply Z.ltb_ge in Hc. rewrite Hdc, Ha in Hc. exact Hc.
Qed.

(** What a returning [SpendableCoins] returns. *)
Lemma SpendableCoins_inv cva blockTime spendable :
  IsValid (cvaGetCoins cva) = true ->
  SpendableCoins cva blockTime = Ok spendable ->
  exists v,
    GetVestingCoins cva blockTime = Ok v
    /\ coveredVesting cva v
    /\ IsValid spendable = true
    /\ forall d,
         AmountOf spendable d
         = spendableAmount (cvaGetCoins cva) (delegatedVesting cva) v d.
Proof.
  intros Hbc Hsp.
  destruct (GetVestingCoins cva blockTime) as [v|e] eqn:Hv.
  2:{ unfold SpendableCoins in Hsp. rewrite Hv in Hsp. discriminate. }
  exists v. split; [reflexivity|].
  destruct (coveredVesting_dec cva v Hbc) as [Hc|(d & Hd & Hlt)].
  - destruct (SpendableCoins_covered cva blockTime v Hbc Hv Hc)
      as (sp & Hrun & Hval & Hamt).
    rewrite Hrun in Hsp. injection Hsp as <-. auto.
  - rewrite (SpendableCoins_negative cva blockTime v d Hbc Hv Hd Hlt) in Hsp.
    discriminate.
Qed.

(** X6.  When the vesting coins are defined, [SpendableCoins] returns
    exactly when no denomination of the base coins has more vesting than
    base coins plus delegated vesting; otherwise it panics on a negative
    coin. *)
Theorem SpendableCoins_returns_iff cva blockTime v :
  IsValid (cvaGetCoins cva) = true ->
  GetVestingCoins cva blockTime = Ok v ->
  ((exists spendable, SpendableCoins cva blockTime = Ok spendable)
   <-> coveredVesting cva v)
  /\ (~ coveredVesting cva v ->
      SpendableCoins cva blockTime = Err NegativeCoinAmount).
Proof.
  intros Hbc Hv. split; [split|].
  - intros [sp Hsp].
    destruct (SpendableCoins_inv cva blockTime sp Hbc Hsp) as (v' & Hv' & Hc & _).
    rewrite Hv in Hv'. injection Hv' as <-. exact Hc.
  - intros Hc.
    destruct (SpendableCoins_covered cva blockTime v Hbc Hv Hc) as (sp & Hsp & _).
    exists sp. exact Hsp.
  - intros Hn.
    destruct (coveredVesting_dec cva v Hbc) as [Hc|(d & Hd & Hlt)];
      [contradiction|].
    apply (SpendableCoins_negative cva blockTime v d Hbc Hv Hd Hlt).
Qed.

(** X7.  The account that [NewContinuousVestingAccount] makes can spend
    nothing up to its start time. *)
Theorem fresh_account_spends_nothing_until_startTime
    addr origCoins (startTime endTime blockTime : Time) :
  IsValid origCoins = true ->
  Unix blockTime <= Unix startTime ->
  SpendableCoins
    (NewContinuousVestingAccount addr origCoins startTime endTime) blockTime
  = Ok [].
Proof.
  intros Hoc Hle.
  set (cva := NewContinuousVestingAccount addr origCoins startTime endTime).
  pose proof (GetVestingCoins_early cva blockTime Hoc Hle) as Hv.
  destruct (SpendableCoins_covered cva blockTime origCoins Hoc Hv)
    as (sp & Hsp & Hval & Hamt).
  { intros d _. change (AmountOf (delegatedVesting cva) d) with 0.
    change (AmountOf (cvaGetCoins cva) d) with (AmountOf origCoins d). lia. }
  rewrite Hsp. f_equal. apply IsValid_ext; [exact Hval | reflexivity |].
  intros d. rewrite Hamt. unfold spendableAmount.
  change (AmountOf (cvaGetCoins cva) d) with (AmountOf origCoins d).
  change (AmountOf (delegatedVesting cva) d) with 0.
  change (AmountOf [] d) with 0.
  pose proof (IsValid_nonneg _ d Hoc).
  destruct (AmountOf origCoins d =? 0); lia.
Qed.

(** X8.  At [endTime], with a positive duration, all base coins are
    spendable, whatever is delegated. *)
Theorem all_spendable_at_endTime cva :
  ledgersValid cva ->
  IsValid (cvaOriginalVesting cva) = true ->
  int64 (Unix (cvaEndTime cva) - Unix (startTime cva)) ->
  Unix (startTime cva) < Unix (cvaEndTime cva) ->
  SpendableCoins cva (cvaEndTime cva) = Ok (cvaGetCoins cva).
Proof.
  intros (Hbc & Hdv & _) Hov Hfit Hlt.
  destruct (GetVestedCoins_at_endTime cva Hov Hfit Hlt) as [_ Hv].
  destruct (SpendableCoins_covered cva (cvaEndTime cva) [] Hbc Hv)
    as (sp & Hsp & Hval & Hamt).
  { intros d Hd. change (AmountOf [] d) with 0.
    pose proof (IsValid_nonneg _ d Hdv). lia. }
  rewrite Hsp. f_equal. apply IsValid_ext; [exact Hval | exact Hbc |].
  intros d. rewrite Hamt. unfold spendableAmount.
  change (AmountOf [] d) with 0.
  pose proof (IsValid_nonneg _ d Hdv).
  destruct (AmountOf (cvaGetCoins cva) d =? 0) eqn:E;
    [apply Z.eqb_eq in E | apply Z.eqb_neq in E]; lia.
Qed.

(** With a positive duration, the vested amounts do not decrease with the
    block time. *)
Lemma vested_nondecreasing cva t1 t2 vested1 vested2 d :
  IsValid (cvaOriginalVesting cva) = true ->
  timesFit cva t1 -> timesFit cva t2 ->
  Unix (startTime cva) < Unix (cvaEndTime cva) ->
  Unix t1 <= Unix t2 ->
  GetVestedCoins cva t1 = Ok vested1 ->
  GetVestedCoins cva t2 = Ok vested2 ->
  AmountOf vested1 d <= AmountOf vested2 d.
Proof.
  intros Hov [Hx1 Hy] [Hx2 _] Hlt Hle H1 H2.
  apply wrap64_id in Hx1. apply wrap64_id in Hx2. apply wrap64_id in Hy.
  fold (sub64 (Unix t1) (Unix (startTime cva))) in Hx1.
  fold (sub64 (Unix t2) (Unix (startTime cva))) in Hx2.
  fold (sub64 (Unix (cvaEndTime cva)) (Unix (startTime cva))) in Hy.
  pose proof (IsValid_nonneg _ d Hov) as Hd.
  destruct (Z_le_gt_dec (Unix t1) (Unix (startTime cva))) as [Hb1|Hb1].
  - rewrite GetVestedCoins_early in H1 by exact Hb1. injection H1 as <-.
    change (AmountOf [] d) with 0.
    destruct (Z_le_gt_dec (Unix t2) (Unix (startTime cva))) as [Hb2|Hb2].
    + rewrite GetVestedCoins_early in H2 by exact Hb2. injection H2 as <-.
      simpl. unfold ZeroInt. lia.
    + apply GetVestedCoins_inv in H2; [|exact Hov | lia].
      destruct H2 as (_ & _ & H2). apply H2.
  - apply GetVestedCoins_inv in H1; [|exact Hov | lia].
    apply GetVestedCoins_inv in H2; [|exact Hov | lia].
    destruct H1 as (_ & _ & H1). destruct H2 as (_ & _ & H2).
    destruct (H1 d) as [-> _]. destruct (H2 d) as [-> _].
    rewrite Hx1, Hx2, Hy. apply vestedAmt_mono; [exact Hd|].
    apply scalar_mono; lia.
Qed.

(** X9.  With the account unchanged, the spendable coins do not decrease
    with the block time up to [endTime]: when [SpendableCoins] returns at
    [t1], it returns at every later [t2 <= endTime], with at least the same
    amount of every denomination. *)
Theorem SpendableCoins_nondecreasing cva t1 t2 spendable1 d :
  IsValid (cvaGetCoins cva) = true ->
  IsValid (cvaOriginalVesting cva) = true ->
  timesFit cva t1 -> timesFit cva t2 ->
  Unix (startTime cva) < Unix (cvaEndTime cva) ->
  Unix t1 <= Unix t2 -> Unix t2 <= Unix (cvaEndTime cva) ->
  SpendableCoins cva t1 = Ok spendable1 ->
  exists spendable2,
    SpendableCoins cva t2 = Ok spendable2
    /\ AmountOf spendable1 d <= AmountOf spendable2 d.
Proof.
  intros Hbc Hov Hf1 Hf2 Hlt H12 H2e Hsp1.
  destruct (SpendableCoins_inv cva t1 spendable1 Hbc Hsp1)
    as (v1 & Hv1 & Hc1 & _ & Hamt1).
  destruct (GetVestingCoins_ok cva t1 Hov Hf1 Hlt ltac:(lia))
    as (a1 & v1' & Ha1 & Hv1' & _ & Hs1).
  rewrite Hv1 in Hv1'. injection Hv1' as <-.
  destruct (GetVestingCoins_ok cva t2 Hov Hf2 Hlt H2e)
    as (a2 & v2 & Ha2 & Hv2 & _ & Hs2).
  assert (Hanti : forall d', AmountOf v2 d' <= AmountOf v1 d').
  { intros d'. destruct (Hs1 d') as [-> _]. destruct (Hs2 d') as [-> _].
    pose proof (vested_nondecreasing cva t1 t2 a1 a2 d' Hov Hf1 Hf2 Hlt H12
                  Ha1 Ha2). lia. }
  destruct (SpendableCoins_covered cva t2 v2 Hbc Hv2)
    as (sp2 & Hsp2 & _ & Hamt2).
  { intros d' Hd'. specialize (Hc1 d' Hd'). specialize (Hanti d'). lia. }
  exists sp2. split; [exact Hsp2|].
  rewrite Hamt1, Hamt2. unfold spendableAmount. specialize (Hanti d).
  destruct (AmountOf (cvaGetCoins cva) d =? 0); lia.
Qed.

(** X10.  Coins that the account receives are spendable at once: after
    [SetCoins] with the base coins plus [received], the spendable amount of
    every denomination is the one before plus the amount received. *)
Theorem received_coins_are_spendable cva blockTime v received :
  IsValid (cvaGetCoins cva) = true ->
  IsValid received = true ->
  GetVestingCoins cva blockTime = Ok v ->
  (forall d, AmountOf v d
             <= AmountOf (cvaGetCoins cva) d + AmountOf (delegatedVesting cva) d) ->
  exists spendable spendable',
    SpendableCoins cva blockTime = Ok spendable
    /\ SpendableCoins
         (assignCoins cva (Plus (cvaGetCoins cva) received)) blockTime
       = Ok spendable'
    /\ forall d,
         AmountOf spendable' d = AmountOf spendable d + AmountOf received d.
Proof.
  intros Hbc Hrec Hv Hge.
  set (cva' := assignCoins cva (Plus (cvaGetCoins cva) received)).
  destruct (SpendableCoins_covered cva blockTime v Hbc Hv)
    as (sp & Hsp & _ & Hamt); [intros d _; apply Hge|].
  assert (Hbc' : IsValid (cvaGetCoins cva') = true)
    by (apply IsValid_Plus; assumption).
  assert (Hv' : GetVestingCoins cva' blockTime = Ok v).
  { rewrite <- Hv. symmetry. apply GetVestingCoins_fixedFields. repeat split. }
  assert (Hsum : forall d,
    AmountOf (cvaGetCoins cva') d
    = AmountOf (cvaGetCoins cva) d + AmountOf received d).
  { intros d. apply AmountOf_Plus; apply IsValid_ascending; assumption. }
  destruct (SpendableCoins_covered cva' blockTime v Hbc' Hv')
    as (sp' & Hsp' & _ & Hamt').
  { intros d _. rewrite Hsum. change (delegatedVesting cva') with
      (delegatedVesting cva).
    pose proof (IsValid_nonneg _ d Hrec). specialize (Hge d). lia. }
  exists sp, sp'. split; [exact Hsp|]. split; [exact Hsp'|].
  intros d. rewrite Hamt, Hamt'. unfold spendableAmount.
  change (delegatedVesting cva') with (delegatedVesting cva). rewrite Hsum.
  pose proof (IsValid_nonneg _ d Hrec). pose proof (IsValid_nonneg _ d Hbc).
  specialize (Hge d).
  destruct (Z.eqb_spec (AmountOf (cvaGetCoins cva) d + AmountOf received d) 0);
    destruct (Z.eqb_spec (AmountOf (cvaGetCoins cva) d) 0); lia.
Qed.

End SpendableExtras.

(** ** Tracking calls on any input *)

Section TrackingFrame.
Context {R : sdk.Rounding}.
Import sdk CoinFacts DecFacts SingleCoin.
Local Open Scope receiver_scope.

Lemma fixedFields_assignCoins cva coins :
  fixedFields cva (assignCoins cva coins).
Proof. repeat split. Qed.

Lemma fixedFields_assignDelegatedFree cva coins :
  fixedFields cva (assignDelegatedFree cva coins).
Proof. repeat split. Qed.

Lemma fixedFields_assignDelegatedVesting cva coins :
  fixedFields cva (assignDelegatedVesting cva coins).
Proof. repeat split. Qed.

Lemma keepsFixed_ret {A : Type} (a : A) : keepsFixed (ret a).
Proof. intros cva. apply fixedFields_refl. Qed.

Lemma keepsFixed_gets {A : Type} (f : ContinuousVestingAccount -> A) :
  keepsFixed (gets f).
Proof. intros cva. apply fixedFields_refl. Qed.

Lemma keepsFixed_liftR {A : Type} (r : result A) : keepsFixed (liftR r).
Proof. intros cva. unfold liftR. destruct r; apply fixedFields_refl. Qed.

Lemma keepsFixed_byValue {A : Type} (f : ContinuousVestingAccount -> result A) :
  keepsFixed (byValue f).
Proof.
  intros cva. unfold byValue, liftR. destruct (f cva); apply fixedFields_refl.
Qed.

Lemma keepsFixed_bind {A B : Type} (m : M ContinuousVestingAccount A)
    (k : A -> M ContinuousVestingAccount B) :
  keepsFixed m -> (forall a, keepsFixed (k a)) -> keepsFixed (bind m k).
Proof.
  intros Hm Hk cva. unfold bind. specialize (Hm cva).
  destruct (m cva) as [a s|e s]; cbn [stateOf] in *.
  - eapply fixedFields_trans; [exact Hm | apply Hk].
  - exact Hm.
Qed.

Lemma keepsFixed_rangeM {A : Type} (body : A -> M ContinuousVestingAccount unit)
    (l : list A) :
  (forall a, keepsFixed (body a)) -> keepsFixed (rangeM body l).
Proof.
  intros Hb. induction l as [|a rest IH]; cbn [rangeM].
  - apply keepsFixed_ret.
  - apply keepsFixed_bind; [apply Hb | intros _; exact IH].
Qed.

Lemma keepsFixed_trackDelegationCoin bc v coin :
  keepsFixed (trackDelegationCoin bc v coin).
Proof.
  unfold trackDelegationCoin.
  destruct (_ || _); [apply keepsFixed_ret|].
  apply keepsFixed_bind; [apply keepsFixed_gets|]. intros dv.
  apply keepsFixed_bind.
  { destruct (negb _); [|apply keepsFixed_ret].
    apply keepsFixed_bind; [apply keepsFixed_liftR|]. intros xCoin cva.
    apply fixedFields_assignDelegatedVesting. }
  intros _. apply keepsFixed_bind.
  { destruct (negb _); [|apply keepsFixed_ret].
    apply keepsFixed_bind; [apply keepsFixed_liftR|]. intros yCoin cva.
    apply fixedFields_assignDelegatedFree. }
  intros _. apply keepsFixed_bind; [apply keepsFixed_liftR|].
  intros newCoins cva. apply fixedFields_assignCoins.
Qed.

Lemma keepsFixed_trackUndelegationCoin bc coin :
  keepsFixed (trackUndelegationCoin bc coin).
Proof.
  unfold trackUndelegationCoin.
  destruct (_ =? _); [apply keepsFixed_ret|].
  apply keepsFixed_bind; [apply keepsFixed_gets|]. intros df.
  apply keepsFixed_bind.
  { destruct (negb _); [|apply keepsFixed_ret].
    apply keepsFixed_bind; [apply keepsFixed_liftR|]. intros xCoin.
    apply keepsFixed_bind; [apply keepsFixed_gets|]. intros df'.
    apply keepsFixed_bind; [apply keepsFixed_liftR|]. intros newFree cva.
    apply fixedFields_assignDelegatedFree. }
  intros _. apply keepsFixed_bind.
  { destruct (negb _); [|apply keepsFixed_ret].
    apply keepsFixed_bind; [apply keepsFixed_liftR|]. intros yCoin.
    apply keepsFixed_bind; [apply keepsFixed_gets|]. intros dv'.
    apply keepsFixed_bind; [apply keepsFixed_liftR|]. intros newVesting cva.
    apply fixedFields_assignDelegatedVesting. }
  intros _ cva. apply fixedFields_assignCoins.
Qed.

(** X11.  Whatever the block times and the amounts, in normal form or not,
    and whether the calls return or panic, a sequence of tracking calls
    assigns none of address, public key, account number, sequence,
    [originalVesting], [startTime] and [endTime]; the vested and vesting
    coins of every block time are those of the account before the calls. *)
Theorem tracking_keeps_schedule_and_identity cva calls blockTime :
  let cva' := stateOf (trackCalls calls cva) in
  fixedFields cva cva'
  /\ GetVestedCoins cva' blockTime = GetVestedCoins cva blockTime
  /\ GetVestingCoins cva' blockTime = GetVestingCoins cva blockTime.
Proof.
  intros cva'.
  assert (H : fixedFields cva cva').
  { unfold cva', trackCalls. apply keepsFixed_rangeM. intros [t amount|amount].
    - unfold trackCall, TrackDelegation.
      apply keepsFixed_bind; [apply keepsFixed_gets|]. intros bc.
      apply keepsFixed_bind; [apply keepsFixed_byValue|]. intros v.
      apply keepsFixed_rangeM. intros c. apply keepsFixed_trackDelegationCoin.
    - unfold trackCall, TrackUndelegation.
      apply keepsFixed_bind; [apply keepsFixed_gets|]. intros bc.
      apply keepsFixed_rangeM. intros c. apply keepsFixed_trackUndelegationCoin. }
  split; [exact H|]. split; symmetry.
  - apply GetVestedCoins_fixedFields, H.
  - apply GetVestingCoins_fixedFields, H.
Qed.

End TrackingFrame.

(** ** Delegations and undelegations in several denominations *)

Section TrackingExtras.
Context {R : sdk.Rounding}.
Import sdk CoinFacts DecFacts SingleCoin.
Local Open Scope receiver_scope.

Lemma vestingPart_bounds vAmt dvAmt dAmt :
  0 <= dAmt -> 0 <= vestingPart vAmt dvAmt dAmt <= dAmt.
Proof. unfold vestingPart. lia. Qed.

(** The loop of [TrackDelegation] over a covered [amount]: the delegated
    ledgers of every denomination. *)
Lemma delegation_loop_exact bc v amount : forall cva,
  IsValid amount = true -> IsValid bc = true ->
  (forall c, In c amount -> Amount c <= AmountOf bc (Denom c)) ->
  IsValid (delegatedVesting cva) = true ->
  IsValid (cvaDelegatedFree cva) = true ->
  exists cva',
    rangeM (trackDelegationCoin bc v) amount cva = Done tt cva'
    /\ IsValid (delegatedVesting cva') = true
    /\ IsValid (cvaDelegatedFree cva') = true
    /\ forall d,
         AmountOf (delegatedVesting cva') d
         = AmountOf (delegatedVesting cva) d
           + vestingPart (AmountOf v d) (AmountOf (delegatedVesting cva) d)
               (AmountOf amount d)
         /\ AmountOf (cvaDelegatedFree cva') d
            = AmountOf (cvaDelegatedFree cva) d
              + (AmountOf amount d
                 - vestingPart (AmountOf v d)
                     (AmountOf (delegatedVesting cva) d) (AmountOf amount d)).
Proof.
  induction amount as [|c rest IH]; intros cva Hamt Hbc Hcov Hdv Hdf.
  - exists cva. split; [reflexivity|]. split; [exact Hdv|]. split; [exact Hdf|].
    intros d. change (AmountOf [] d) with 0. unfold vestingPart. lia.
  - destruct (IsValid_cons_inv _ _ Hamt) as (Hpos & Hrest & Hdiff).
    pose proof (IsValid_ascending _ Hamt) as Hasc.
    cbn [rangeM]. unfold bind.
    destruct (trackDelegationCoin_Done bc v c cva Hpos) as
      (cva1 & -> & _ & _ & Hdv1 & Hdf1 & Hva & Hfa);
      [apply Hcov; left; reflexivity | assumption..|].
    destruct (IH cva1 Hrest Hbc) as (cva' & Hrun & Hdv' & Hdf' & Hex);
      [intros c' Hc'; apply Hcov; right; exact Hc' | assumption..|].
    exists cva'. split; [exact Hrun|]. split; [exact Hdv'|].
    split; [exact Hdf'|].
    intros d. destruct (Hex d) as [E1 E2]. rewrite E1, E2, Hva, Hfa.
    rewrite (AmountOf_cons_ascending c rest d Hasc).
    unfold only, vestingPart.
    destruct (String.eqb (Denom c) d) eqn:E.
    + apply String.eqb_eq in E. subst d.
      rewrite (above_AmountOf _ _ (ascending_head _ _ Hasc)). lia.
    + lia.
Qed.

(** The loop of [TrackUndelegation] when no coin is overdrawn: the delegated
    ledgers of every denomination. *)
Lemma undelegation_loop_exact bc amount : forall cva,
  IsValid amount = true ->
  IsValid (cvaDelegatedFree cva) = true ->
  IsValid (delegatedVesting cva) = true ->
  (forall c, In c amount -> ~ overdrawn cva c) ->
  exists cva',
    rangeM (trackUndelegationCoin bc) amount cva = Done tt cva'
    /\ IsValid (cvaDelegatedFree cva') = true
    /\ IsValid (delegatedVesting cva') = true
    /\ forall d,
         AmountOf (cvaDelegatedFree cva') d
         = AmountOf (cvaDelegatedFree cva) d
           - freePart (AmountOf (cvaDelegatedFree cva) d) (AmountOf amount d)
         /\ AmountOf (delegatedVesting cva') d
            = AmountOf (delegatedVesting cva) d
              - (AmountOf amount d
                 - freePart (AmountOf (cvaDelegatedFree cva) d)
                     (AmountOf amount d)).
Proof.
  induction amount as [|c rest IH]; intros cva Hamt Hdf Hdv Hcov.
  - exists cva. split; [reflexivity|]. split; [exact Hdf|]. split; [exact Hdv|].
    intros d. change (AmountOf [] d) with 0. unfold freePart.
    pose proof (IsValid_nonneg _ d Hdf). lia.
  - destruct (IsValid_cons_inv _ _ Hamt) as (Hpos & Hrest & Hdiff).
    pose proof (IsValid_ascending _ Hamt) as Hasc.
    cbn [rangeM]. unfold bind.
    destruct (trackUndelegationCoin_Done bc c cva Hpos Hdf Hdv) as
      (cva1 & -> & _ & _ & Hdf1 & Hdv1 & Hfa & Hva).
    { pose proof (Hcov c (or_introl eq_refl)) as H. unfold overdrawn in H. lia. }
    destruct (IH cva1 Hrest Hdf1 Hdv1) as (cva' & Hrun & Hdf' & Hdv' & Hex).
    { intros c' Hc'. pose proof (Hcov c' (or_intror Hc')) as H.
      unfold overdrawn in *.
      rewrite Hfa, Hva, !only_other by (apply Hdiff, Hc'). lia. }
    exists cva'. split; [exact Hrun|]. split; [exact Hdf'|].
    split; [exact Hdv'|].
    intros d. destruct (Hex d) as [E1 E2]. rewrite E1, E2, Hva, Hfa.
    rewrite (AmountOf_cons_ascending c rest d Hasc).
    pose proof (IsValid_nonneg _ d Hdf).
    unfold only, freePart.
    destruct (String.eqb (Denom c) d) eqn:E.
    + apply String.eqb_eq in E. subst d.
      rewrite (above_AmountOf _ _ (ascending_head _ _ Hasc)). lia.
    + lia.
Qed.



(** X14.  At [endTime], with a positive duration, a covered delegation is
    recorded as delegated free in full: [delegatedVesting] is as before and
    [delegatedFree] grows by the amount. *)
Theorem TrackDelegation_at_endTime_is_free cva amount :
  ledgersValid cva ->
  IsValid (cvaOriginalVesting cva) = true ->
  int64 (Unix (cvaEndTime cva) - Unix (startTime cva)) ->
  Unix (startTime cva) < Unix (cvaEndTime cva) ->
  IsValid amount = true ->
  (forall d, AmountOf amount d <= AmountOf (cvaGetCoins cva) d) ->
  exists cva',
    TrackDelegation (cvaEndTime cva) amount cva = Done tt cva'
    /\ delegatedVesting cva' = delegatedVesting cva
    /\ cvaDelegatedFree cva' = Plus (cvaDelegatedFree cva) amount.
Proof.
  intros Hl Hov Hfit Hlt Hamt Hcov.
  destruct (GetVestedCoins_at_endTime cva Hov Hfit Hlt) as [_ Hv].
  destruct (delegation_loop_exact (cvaGetCoins cva) [] amount cva Hamt)
    as (cva' & Hrun & Hdv' & Hdf' & Hex);
    try (destruct Hl as (Hbc & Hdv & Hdf); assumption).
  { intros c Hc.
    rewrite <- (In_AmountOf _ _ (IsValid_ascending _ Hamt) Hc). apply Hcov. }
  destruct Hl as (Hbc & Hdv & Hdf).
  exists cva'. split; [rewrite TrackDelegation_unfold, Hv; exact Hrun|].
  assert (Hx : forall d,
    vestingPart (AmountOf [] d) (AmountOf (delegatedVesting cva) d)
      (AmountOf amount d) = 0).
  { intros d. change (AmountOf [] d) with 0. unfold vestingPart.
    pose proof (IsValid_nonneg _ d Hdv). pose proof (IsValid_nonneg _ d Hamt).
    lia. }
  split.
  - apply IsValid_ext; [exact Hdv' | exact Hdv |].
    intros d. destruct (Hex d) as [-> _]. rewrite Hx. lia.
  - apply IsValid_ext; [exact Hdf' | apply IsValid_Plus; assumption |].
    intros d. destruct (Hex d) as [_ ->]. rewrite Hx.
    rewrite AmountOf_Plus by (apply IsValid_ascending; assumption). lia.
Qed.

(** X15.  An undelegation of an [amount] in normal form returns whenever
    every denomination has at least the amount delegated in the two ledgers
    together, and drains [delegatedFree] first: it takes
    [X = min(DF, R)] from [delegatedFree] and [R - X] from
    [delegatedVesting], and both ledgers stay in normal form. *)
Theorem TrackUndelegation_drains_free_first cva amount :
  IsValid (cvaDelegatedFree cva) = true ->
  IsValid (delegatedVesting cva) = true ->
  IsValid amount = true ->
  (forall d, AmountOf amount d
             <= AmountOf (delegatedVesting cva) d
                + AmountOf (cvaDelegatedFree cva) d) ->
  exists cva',
    TrackUndelegation amount cva = Done tt cva'
    /\ IsValid (cvaDelegatedFree cva') = true
    /\ IsValid (delegatedVesting cva') = true
    /\ forall d,
         let x := freePart (AmountOf (cvaDelegatedFree cva) d)
                    (AmountOf amount d) in
         AmountOf (cvaDelegatedFree cva') d
         = AmountOf (cvaDelegatedFree cva) d - x
         /\ AmountOf (delegatedVesting cva') d
            = AmountOf (delegatedVesting cva) d - (AmountOf amount d - x).
Proof.
  intros Hdf Hdv Hamt Hle.
  pose proof (IsValid_ascending _ Hamt) as Hasc.
  rewrite TrackUndelegation_unfold.
  apply undelegation_loop_exact; try assumption.
  intros c Hc. unfold overdrawn.
  specialize (Hle (Denom c)). rewrite (In_AmountOf _ _ Hasc Hc) in Hle.
  pose proof (IsValid_nonneg _ (Denom c) Hdv). lia.
Qed.

(** X16.  On an account without delegations every undelegation of a
    non-empty amount in normal form panics with [NegativeResult], and the
    account at the panic is the account before the call. *)
Theorem TrackUndelegation_without_delegations_panics cva amount :
  cvaDelegatedFree cva = [] -> delegatedVesting cva = [] ->
  IsValid amount = true -> amount <> [] ->
  TrackUndelegation amount cva = Panic NegativeResult cva.
Proof.
  intros Hdf Hdv Hamt Hne.
  destruct amount as [|c rest]; [congruence|].
  destruct (IsValid_cons_inv _ _ Hamt) as (Hpos & _ & _).
  rewrite TrackUndelegation_unfold. cbn [rangeM]. unfold bind.
  unfold trackUndelegationCoin.
  destruct (Amount c =? 0) eqn:E0; [apply Z.eqb_eq in E0; lia|].
  unfold bind at 1. unfold gets at 1. rewrite Hdf.
  change (AmountOf [] (Denom c)) with 0. unfold MinInt.
  replace (Z.min 0 (Amount c)) with 0 by lia.
  change (negb (0 =? 0)) with false. cbv iota.
  unfold bind at 1. unfold ret at 1.
  rewrite Z.sub_0_r.
  unfold bind at 1.
  rewrite (takeVesting_Panic (Denom c) (Amount c) cva);
    [reflexivity | rewrite Hdv; reflexivity | rewrite Hdv; simpl; exact Hpos].
Qed.

(** X17.  A delegation of one coin that the base coins cover lowers the
    spendable amount of its denomination by the free part [D - X] only; the
    vesting part of the delegation costs nothing spendable, and the other
    denominations keep their spendable amounts. *)
Theorem TrackDelegation_lowers_spendable_by_free_part
    cva blockTime v coin :
  ledgersValid cva ->
  GetVestingCoins cva blockTime = Ok v ->
  coveredVesting cva v ->
  0 < Amount coin -> Amount coin <= AmountOf (cvaGetCoins cva) (Denom coin) ->
  exists cva' spendable spendable',
    TrackDelegation blockTime [coin] cva = Done tt cva'
    /\ SpendableCoins cva blockTime = Ok spendable
    /\ SpendableCoins cva' blockTime = Ok spendable'
    /\ forall d,
         AmountOf spendable' d
         = AmountOf spendable d
           - only (Denom coin)
               (Amount coin
                - vestingPart (AmountOf v (Denom coin))
                    (AmountOf (delegatedVesting cva) (Denom coin))
                    (Amount coin)) d.
Proof.
  intros Hl Hv Hc Hpos Hcov.
  destruct (TrackDelegation_single cva blockTime v coin Hl Hv Hpos Hcov)
    as (cva' & Hrun & Hfix & (Hbc' & Hdv' & Hdf') & Hamt).
  destruct Hl as (Hbc & Hdv & Hdf).
  destruct (SpendableCoins_covered cva blockTime v Hbc Hv Hc)
    as (sp & Hsp & _ & Hspa).
  assert (Hv' : GetVestingCoins cva' blockTime = Ok v).
  { rewrite <- Hv. symmetry. apply GetVestingCoins_fixedFields, Hfix. }
  assert (Hc' : coveredVesting cva' v).
  { intros d Hd. destruct (Hamt d) as (E1 & _ & E3).
    rewrite E1, E3 in *. unfold only in *.
    destruct (String.eqb (Denom coin) d) eqn:E.
    - apply String.eqb_eq in E. subst d.
      assert (0 < AmountOf (cvaGetCoins cva) (Denom coin)) by lia.
      specialize (Hc _ H). lia.
    - rewrite Z.sub_0_r in Hd. specialize (Hc _ Hd). lia. }
  destruct (SpendableCoins_covered cva' blockTime v Hbc' Hv' Hc')
    as (sp' & Hsp' & _ & Hspa').
  exists cva', sp, sp'. split; [exact Hrun|]. split; [exact Hsp|].
  split; [exact Hsp'|].
  intros d. rewrite Hspa, Hspa'. unfold spendableAmount.
  destruct (Hamt d) as (E1 & _ & E3). rewrite E1, E3.
  pose proof (IsValid_nonneg _ d Hbc). pose proof (IsValid_nonneg _ d Hdv).
  unfold only, vestingPart.
  destruct (String.eqb (Denom coin) d) eqn:E.
  - apply String.eqb_eq in E. subst d.
    assert (H1 : 0 < AmountOf (cvaGetCoins cva) (Denom coin)) by lia.
    specialize (Hc _ H1).
    destruct (Z.eqb_spec (AmountOf (cvaGetCoins cva) (Denom coin)
                          - Amount coin) 0);
      destruct (Z.eqb_spec (AmountOf (cvaGetCoins cva) (Denom coin)) 0); lia.
  - rewrite !Z.sub_0_r, !Z.add_0_r. reflexivity.
Qed.

End TrackingExtras.

(** ** The setters of BaseAccount *)

Section SetterExtras.

Lemma SetAddress_Some acc addr acc' :
  SetAddress acc addr = Some acc' -> Address acc = [] /\ Address acc' = addr.
Proof.
  unfold SetAddress. destruct (Address acc) as [|b rest] eqn:E; simpl.
  - intros H. injection H as <-. auto.
  - discriminate.
Qed.

Lemma setterCall_keeps_address acc c :
  Address acc <> [] -> Address (setterCall acc c) = Address acc.
Proof.
  intros Hne. destruct c; try reflexivity. simpl.
  destruct (SetAddress acc addr) as [acc'|] eqn:E; [|reflexivity].
  apply SetAddress_Some in E. destruct E as [E _]. contradiction.
Qed.

(** X18.  The address is set once: through any sequence of setter calls an
    address that is not empty stays as it is, and on an account with an
    empty address the first [SetAddress] with an address that is not empty
    fixes it for all later calls. *)
Theorem address_is_set_once acc calls :
  (Address acc <> [] -> Address (setterCalls acc calls) = Address acc)
  /\ (forall addr, Address acc = [] -> addr <> [] ->
        Address (setterCalls acc (CallSetAddress addr :: calls)) = addr).
Proof.
  assert (H : forall cs a, Address a <> [] ->
            Address (setterCalls a cs) = Address a).
  { induction cs as [|c cs IH]; intros a Ha; [reflexivity|].
    unfold setterCalls in *. cbn [fold_left].
    rewrite IH; rewrite setterCall_keeps_address by exact Ha;
      [reflexivity | exact Ha]. }
  split; [apply H|].
  intros addr Hempty Hne. unfold setterCalls. cbn [fold_left].
  assert (E : Address (setterCall acc (CallSetAddress addr)) = addr).
  { simpl. unfold SetAddress. rewrite Hempty. reflexivity. }
  fold (setterCalls (setterCall acc (CallSetAddress addr)) calls).
  rewrite H; rewrite E; [reflexivity | exact Hne].
Qed.

(** X19.  Only [SetCoins] changes the coins: through any sequence of calls
    of the other setters, also of [SetAddress] calls that fail, [GetCoins]
    returns the coins of the account before the calls; after a [SetCoins]
    followed by such calls it returns the coins that were set. *)
Theorem only_SetCoins_changes_coins acc coins calls :
  (forall c, In c calls -> forall x, c <> CallSetCoins x) ->
  GetCoins (setterCalls acc calls) = GetCoins acc
  /\ GetCoins (setterCalls acc (CallSetCoins coins :: calls)) = coins.
Proof.
  intros Hno.
  assert (H : forall cs a,
            (forall c, In c cs -> forall x, c <> CallSetCoins x) ->
            GetCoins (setterCalls a cs) = GetCoins a).
  { induction cs as [|c cs IH]; intros a Hcs; [reflexivity|].
    unfold setterCalls in *. cbn [fold_left]. rewrite IH.
    - destruct c as [a'|p|x|n|s]; try reflexivity.
      + simpl. unfold SetAddress. destruct (negb _); reflexivity.
      + exfalso. apply (Hcs (CallSetCoins x) (or_introl eq_refl) x).
        reflexivity.
    - intros c' Hc'. apply Hcs. right. exact Hc'. }
  split; [apply H; exact Hno|].
  unfold setterCalls. cbn [fold_left].
  fold (setterCalls (setterCall acc (CallSetCoins coins)) calls).
  rewrite H by exact Hno. reflexivity.
Qed.

End SetterExtras.

(** ** The end blocker *)

Module EndBlockFacts.
Import consensus.

Lemma EndBlock_Some_fields space updates :
  EndBlock space = Some updates ->
  forall key, getIfModified space key = Some (field updates key).
Proof.
  unfold EndBlock, andThen. intros H.
  destruct (getIfModified space blockMaxBytesKey) as [v1|] eqn:E1;
    [|discriminate].
  destruct (getIfModified space blockMaxTxsKey) as [v2|] eqn:E2;
    [|discriminate].
  destruct (getIfModified space blockMaxGasKey) as [v3|] eqn:E3;
    [|discriminate].
  destruct (getIfModified space txMaxBytesKey) as [v4|] eqn:E4;
    [|discriminate].
  destruct (getIfModified space txMaxGasKey) as [v5|] eqn:E5;
    [|discriminate].
  destruct (getIfModified space blockPartSizeBytesKey) as [v6|] eqn:E6;
    [|discriminate].
  injection H as <-.
  intros []; assumption.
Qed.

Lemma EndBlock_of_fields space updates :
  (forall key, getIfModified space key = Some (field updates key)) ->
  EndBlock space = Some updates.
Proof.
  intros H. unfold EndBlock.
  rewrite (H blockMaxBytesKey), (H blockMaxTxsKey), (H blockMaxGasKey),
    (H txMaxBytesKey), (H txMaxGasKey), (H blockPartSizeBytesKey).
  cbn [andThen field]. destruct updates as [[a b c] [d e] [f]]. reflexivity.
Qed.

(** X20.  [EndBlock] returns the updates [u] exactly when every modified
    key decodes and [u] holds, field by field, the decoded value of each
    modified key and zero for each key that was not modified. *)
Theorem EndBlock_returns_iff space updates :
  EndBlock space = Some updates
  <-> forall key,
        if Modified space key
        then Get space key = Some (field updates key)
        else field updates key = 0.
Proof.
  split.
  - intros H key. pose proof (EndBlock_Some_fields space updates H key) as E.
    unfold getIfModified in E. destruct (Modified space key); [exact E|].
    injection E as E. symmetry. exact E.
  - intros H. apply EndBlock_of_fields. intros key. specialize (H key).
    unfold getIfModified. destruct (Modified space key); [exact H|].
    rewrite H. reflexivity.
Qed.

(** X21.  When no parameter was modified in the block, [EndBlock] returns
    the updates with every field zero and decodes nothing: it returns them
    also when no key of the space would decode. *)
Theorem EndBlock_nothing_modified space :
  (forall key, Modified space key = false) ->
  EndBlock space = Some zeroParams.
Proof.
  intros H. apply EndBlock_of_fields. intros key.
  unfold getIfModified. rewrite H. destruct key; reflexivity.
Qed.

(** X22.  [EndBlock] reads the modified keys only: two spaces with the same
    modified keys and the same values under them give the same outcome,
    whatever they hold under the other keys. *)
Theorem EndBlock_reads_modified_keys_only space space' :
  (forall key, Modified space key = Modified space' key) ->
  (forall key, Modified space key = true -> Get space key = Get space' key) ->
  EndBlock space = EndBlock space'.
Proof.
  intros Hm Hg.
  assert (H : forall key, getIfModified space key = getIfModified space' key).
  { intros key. unfold getIfModified. rewrite <- Hm.
    destruct (Modified space key) eqn:E; [apply Hg, E | reflexivity]. }
  unfold EndBlock. rewrite !H. reflexivity.
Qed.

(** X23.  [EndBlock] panics exactly when the value of some modified key
    fails to decode. *)
Theorem EndBlock_panics_iff space :
  EndBlock space = None
  <-> exists key, Modified space key = true /\ Get space key = None.
Proof.
  assert (Hk : forall key, getIfModified space key = None ->
            Modified space key = true /\ Get space key = None).
  { intros key. unfold getIfModified.
    destruct (Modified space key); [auto | discriminate]. }
  split.
  - unfold EndBlock, andThen. intros H.
    destruct (getIfModified space blockMaxBytesKey) eqn:E1;
      [|exists blockMaxBytesKey; auto].
    destruct (getIfModified space blockMaxTxsKey) eqn:E2;
      [|exists blockMaxTxsKey; auto].
    destruct (getIfModified space blockMaxGasKey) eqn:E3;
      [|exists blockMaxGasKey; auto].
    destruct (getIfModified space txMaxBytesKey) eqn:E4;
      [|exists txMaxBytesKey; auto].
    destruct (getIfModified space txMaxGasKey) eqn:E5;
      [|exists txMaxGasKey; auto].
    destruct (getIfModified space blockPartSizeBytesKey) eqn:E6;
      [discriminate | exists blockPartSizeBytesKey; auto].
  - intros (key & Hm & Hg).
    destruct (EndBlock space) as [u|] eqn:E; [|reflexivity].
    pose proof (EndBlock_Some_fields space u E key) as F.
    unfold getIfModified in F. rewrite Hm, Hg in F. discriminate.
Qed.

End EndBlockFacts.

(** * Concrete runs *)

#[local] Existing Instance bankers.

Module Runs.
Import sdk Scenario.
Local Open Scope receiver_scope.
Local Open Scope string_scope.

(** The seed scenarios 1 to 4 of the spec. *)
Example seed_mid_vesting :
  GetVestingCoins fresh 50 = Ok [atom 50]
  /\ SpendableCoins fresh 50 = Ok [atom 50].
Proof. vm_compute. split; reflexivity. Qed.

Example seed_delegations :
  let s2 := stateOf (TrackDelegation 50 [atom 40] fresh) in
  let s3 := stateOf (TrackDelegation 50 [atom 30] s2) in
  let s4 := stateOf (TrackUndelegation [atom 25] s3) in
  TrackDelegation 50 [atom 40] fresh = Done tt s2
  /\ (delegatedVesting s2, cvaDelegatedFree s2, cvaGetCoins s2)
     = ([atom 40], [], [atom 60])
  /\ SpendableCoins s2 50 = Ok [atom 50]
  /\ TrackDelegation 50 [atom 30] s2 = Done tt s3
  /\ (delegatedVesting s3, cvaDelegatedFree s3, cvaGetCoins s3)
     = ([atom 50], [atom 20], [atom 30])
  /\ TrackUndelegation [atom 25] s3 = Done tt s4
  /\ (delegatedVesting s4, cvaDelegatedFree s4, cvaGetCoins s4)
     = ([atom 45], [], [atom 55]).
Proof. vm_compute. repeat split; reflexivity. Qed.

(** How the accounts of [Scenario] come about. *)
Example partlyDelegated_reached :
  TrackDelegation 98 [atom 12] fresh = Done tt partlyDelegated.
Proof. vm_compute. reflexivity. Qed.

Example halfBack_reached :
  trackCalls [Delegate 100 [atom 100]; Undelegate [atom 50]] fresh
  = Done tt halfBack.
Proof. vm_compute. reflexivity. Qed.

(** A round trip may move coins between the two delegated ledgers: with
    5 atom delegated free and all coins vesting, delegating and undelegating
    10 atom leaves 5 atom delegated vesting and nothing delegated free. *)
Example roundtrip_moves_between_ledgers :
  let before := assignCoins (assignDelegatedFree fresh [atom 5]) [atom 95] in
  let after :=
    stateOf ((TrackDelegation 0 [atom 10] ;;; TrackUndelegation [atom 10])
               before) in
  (delegatedVesting before, cvaDelegatedFree before, cvaGetCoins before)
  = ([], [atom 5], [atom 95])
  /\ (delegatedVesting after, cvaDelegatedFree after, cvaGetCoins after)
     = ([atom 5], [], [atom 95]).
Proof. vm_compute. split; reflexivity. Qed.

End Runs.

(** * The claims at concrete inputs *)

Local Open Scope receiver_scope.

(** C1, counterexample.  [Scenario.halfBack] holds 50 atom of base coins
    and no delegated vesting; at block time 10, 90 atom are vesting.  The
    loop computes [min(50 + 0 - 90, 50) = -40] and panics on the negative
    coin, where the claim has [SpendableCoins] succeed with
    [min(max(-40, 0), 50) = 0]. *)
Lemma SpendableCoins_fails_below_vesting :
  GetVestingCoins Scenario.halfBack 10 = Ok [atom 90]
  /\ ~ (exists spendable, SpendableCoins Scenario.halfBack 10 = Ok spendable).
Proof.
  split; [vm_compute; reflexivity|].
  intros [spendable H]. vm_compute in H. discriminate.
Qed.

(** The amended C1 at the fresh account of seed scenario 1. *)
Lemma SpendableCoins_amounts_witness :
  exists spendable,
    SpendableCoins Scenario.fresh 50 = Ok spendable
    /\ sdk.IsValid spendable = true
    /\ forall d,
         (0 < sdk.AmountOf (cvaGetCoins Scenario.fresh) d ->
          sdk.AmountOf spendable d
          = Z.min (sdk.AmountOf (cvaGetCoins Scenario.fresh) d
                   + sdk.AmountOf (delegatedVesting Scenario.fresh) d
                   - sdk.AmountOf [atom 50] d)
                  (sdk.AmountOf (cvaGetCoins Scenario.fresh) d)
          /\ sdk.AmountOf spendable d
             = Z.min (Z.max (sdk.AmountOf (cvaGetCoins Scenario.fresh) d
                             + sdk.AmountOf (delegatedVesting Scenario.fresh) d
                             - sdk.AmountOf [atom 50] d) 0)
                     (sdk.AmountOf (cvaGetCoins Scenario.fresh) d))
         /\ 0 <= sdk.AmountOf spendable d
            <= sdk.AmountOf (cvaGetCoins Scenario.fresh) d.
Proof.
  apply (SpendableCoins_amounts Scenario.fresh 50 [atom 50]).
  - reflexivity.
  - vm_compute. reflexivity.
  - intros d _.
    change (sdk.AmountOf [atom 50] d
            <= sdk.AmountOf [atom 100] d + sdk.AmountOf [] d).
    cbn [sdk.AmountOf atom coin sdk.Denom sdk.Amount]. unfold sdk.ZeroInt.
    destruct (String.eqb "atom" d); lia.
Defined.

(** C2, the defect at a concrete input.  A delegation of 5 a and 5 b from
    base coins of 10 a and 10 b returns with 5 a in [delegatedVesting] and
    the 10 a still in the base coins: the base coins read before the loop
    are used in every iteration, so only the last coin is debited.  [Q] of
    the denomination a goes from 10 to 15. *)
Theorem TrackDelegation_two_denoms_changes_Q :
  exists cva',
    TrackDelegation 0 [coin "a" 5; coin "b" 5] Scenario.twoDenoms = Done tt cva'
    /\ cvaGetCoins cva' = [coin "a" 10; coin "b" 5]
    /\ delegatedVesting cva' = [coin "a" 5; coin "b" 5]
    /\ Q Scenario.twoDenoms "a" = 10
    /\ Q cva' "a" = 15.
Proof.
  exists (stateOf
            (TrackDelegation 0 [coin "a" 5; coin "b" 5] Scenario.twoDenoms)).
  vm_compute. repeat split; reflexivity.
Qed.

(** C3, the defect at a concrete input.  With 100 atom vesting from 0 to
    100, at block time 150 [GetVestedCoins] returns 150 atom, more than
    [originalVesting], and [GetVestingCoins] panics in the subtraction. *)
Theorem GetVestedCoins_after_endTime :
  GetVestedCoins Scenario.fresh 150 = Ok [atom 150]
  /\ GetVestingCoins Scenario.fresh 150 = Err NegativeResult.
Proof. vm_compute. split; reflexivity. Qed.

(** C4, counterexample.  With 10 atom delegated free and 2 atom delegated
    vesting, the undelegation of 15 atom takes 10 atom from [delegatedFree]
    and asks 5 atom of [delegatedVesting]: it panics with [NegativeResult]
    after [delegatedFree] was assigned the empty coins, and the account at
    the panic is not the account before the call. *)
Lemma TrackUndelegation_panics_after_assignment :
  TrackUndelegation [atom 15] Scenario.partlyDelegated
  = Panic NegativeResult (assignDelegatedFree Scenario.partlyDelegated [])
  /\ cvaDelegatedFree Scenario.partlyDelegated = [atom 10]
  /\ TrackUndelegation [atom 15] Scenario.partlyDelegated
     <> Panic NegativeResult Scenario.partlyDelegated.
Proof.
  split; [vm_compute; reflexivity|]. split; [reflexivity|].
  vm_compute. discriminate.
Qed.

(** The amended C4 at the same account and amount. *)
Lemma TrackUndelegation_overdrawn_witness :
  exists cva' c,
    TrackUndelegation [atom 15] Scenario.partlyDelegated
    = Panic NegativeResult cva'
    /\ fixedFields Scenario.partlyDelegated cva'
    /\ In c [atom 15] /\ overdrawn Scenario.partlyDelegated c
    /\ sdk.AmountOf (cvaDelegatedFree cva') (sdk.Denom c)
       = sdk.AmountOf (cvaDelegatedFree Scenario.partlyDelegated) (sdk.Denom c)
         - Z.min (sdk.AmountOf (cvaDelegatedFree Scenario.partlyDelegated)
                    (sdk.Denom c))
                 (sdk.Amount c)
    /\ sdk.AmountOf (delegatedVesting cva') (sdk.Denom c)
       = sdk.AmountOf (delegatedVesting Scenario.partlyDelegated) (sdk.Denom c).
Proof.
  apply (TrackUndelegation_overdrawn Scenario.partlyDelegated [atom 15] "atom").
  - reflexivity.
  - reflexivity.
  - reflexivity.
  - vm_compute. reflexivity.
Defined.

(** C5, the defect at a concrete input.  At block time 150, after
    [endTime], the delegation of 10 atom that the base coins cover panics in
    [GetVestingCoins] before the loop, and no ledger moves; the claim has
    [delegatedFree] grow by 10 and the base coins shrink by 10. *)
Theorem TrackDelegation_after_endTime :
  TrackDelegation 150 [atom 10] Scenario.fresh
  = Panic NegativeResult Scenario.fresh.
Proof. vm_compute. reflexivity. Qed.

(** C6, the defect at a concrete input.  From the account made by
    [NewContinuousVestingAccount] with 10 a and 10 b, the delegation of 10 a
    and 10 b debits only b, so a second delegation of 10 a is still covered:
    after both, 20 a are delegated, of 10 a of [originalVesting]. *)
Theorem trackCalls_exceed_originalVesting :
  exists cva',
    trackCalls
      [Delegate 0 [coin "a" 10; coin "b" 10]; Delegate 0 [coin "a" 10]]
      (NewContinuousVestingAccount [] [coin "a" 10; coin "b" 10] 0 100)
    = Done tt cva'
    /\ sdk.AmountOf (delegatedVesting cva') "a"
       + sdk.AmountOf (cvaDelegatedFree cva') "a" = 20
    /\ sdk.AmountOf (cvaOriginalVesting cva') "a" = 10.
Proof.
  exists (stateOf
            (trackCalls
               [Delegate 0 [coin "a" 10; coin "b" 10];
                Delegate 0 [coin "a" 10]]
               (NewContinuousVestingAccount []
                  [coin "a" 10; coin "b" 10] 0 100))).
  vm_compute. repeat split; reflexivity.
Qed.

(** C7 at the fresh account, between the block times 25 and 50. *)
Lemma GetVestedCoins_monotone_witness :
  (forall vested1 vested2,
     GetVestedCoins Scenario.fresh 25 = Ok vested1 ->
     GetVestedCoins Scenario.fresh 50 = Ok vested2 ->
     sdk.AmountOf vested1 "atom" <= sdk.AmountOf vested2 "atom")
  /\ (Unix (startTime Scenario.fresh) < Unix (cvaEndTime Scenario.fresh) ->
      exists vested1 vested2,
        GetVestedCoins Scenario.fresh 25 = Ok vested1
        /\ GetVestedCoins Scenario.fresh 50 = Ok vested2).
Proof.
  apply (GetVestedCoins_monotone Scenario.fresh 25 50 "atom").
  - reflexivity.
  - split; apply int64b_spec; reflexivity.
  - split; apply int64b_spec; reflexivity.
  - vm_compute. discriminate.
Defined.

(** C8 at the fresh account: 40 atom delegated at block time 50 and
    undelegated. *)
Lemma TrackDelegation_TrackUndelegation_roundtrip_witness :
  let outcome :=
    (TrackDelegation 50 [atom 40] ;;; TrackUndelegation [atom 40])
      Scenario.fresh in
  cvaGetCoins (stateOf outcome) = cvaGetCoins Scenario.fresh
  /\ (forall d,
        sdk.AmountOf (delegatedVesting (stateOf outcome)) d
        + sdk.AmountOf (cvaDelegatedFree (stateOf outcome)) d
        = sdk.AmountOf (delegatedVesting Scenario.fresh) d
          + sdk.AmountOf (cvaDelegatedFree Scenario.fresh) d)
  /\ (forall v, GetVestingCoins Scenario.fresh 50 = Ok v ->
        exists cva', outcome = Done tt cva').
Proof.
  apply (TrackDelegation_TrackUndelegation_roundtrip Scenario.fresh 50
           [atom 40]).
  - repeat split.
  - reflexivity.
  - intros d.
    change (sdk.AmountOf [atom 40] d <= sdk.AmountOf [atom 100] d).
    cbn [sdk.AmountOf atom coin sdk.Denom sdk.Amount]. unfold sdk.ZeroInt.
    destruct (String.eqb "atom" d); lia.
Defined.

(** * The further properties at concrete inputs *)

Ltac by_denomination :=
  intros; with_strategy opaque [String.eqb] cbn;
  unfold sdk.ZeroInt;
  repeat match goal with
         | |- context [String.eqb ?a ?d] => destruct (String.eqb a d)
         end;
  lia.

Ltac fits := try split; apply int64b_spec; reflexivity.

(** X1 at the fresh account, at its start time. *)
Lemma nothing_vested_until_startTime_witness :
  GetVestedCoins Scenario.fresh 0 = Ok []
  /\ GetVestingCoins Scenario.fresh 0
     = Ok (cvaOriginalVesting Scenario.fresh).
Proof.
  apply (nothing_vested_until_startTime Scenario.fresh 0).
  - reflexivity.
  - vm_compute. discriminate.
Defined.

(** X2 at the fresh account. *)
Lemma all_vested_at_endTime_witness :
  GetVestedCoins Scenario.fresh (cvaEndTime Scenario.fresh)
  = Ok (cvaOriginalVesting Scenario.fresh)
  /\ GetVestingCoins Scenario.fresh (cvaEndTime Scenario.fresh) = Ok [].
Proof.
  apply (all_vested_at_endTime Scenario.fresh).
  - reflexivity.
  - fits.
  - vm_compute. reflexivity.
Defined.

(** X3 at the fresh account, at block time 50. *)
Lemma vested_and_vesting_split_originalVesting_witness :
  exists vested vesting,
    GetVestedCoins Scenario.fresh 50 = Ok vested
    /\ GetVestingCoins Scenario.fresh 50 = Ok vesting
    /\ sdk.IsValid vested = true /\ sdk.IsValid vesting = true
    /\ forall d,
         sdk.AmountOf vested d + sdk.AmountOf vesting d
         = sdk.AmountOf (cvaOriginalVesting Scenario.fresh) d
         /\ 0 <= sdk.AmountOf vested d /\ 0 <= sdk.AmountOf vesting d.
Proof.
  apply (vested_and_vesting_split_originalVesting Scenario.fresh 50).
  - reflexivity.
  - fits.
  - vm_compute. reflexivity.
  - vm_compute. discriminate.
Defined.

(** X4 at the fresh account, at block time 50. *)
Lemma GetVestedCoins_denominations_witness :
  sdk.IsValid [atom 50] = true
  /\ forall d, sdk.AmountOf (cvaOriginalVesting Scenario.fresh) d = 0 ->
               sdk.AmountOf [atom 50] d = 0.
Proof.
  apply (GetVestedCoins_denominations Scenario.fresh 50 [atom 50]).
  - reflexivity.
  - vm_compute. reflexivity.
Defined.

(** X5 at 100 atom with start and end at 100, one second later. *)
Lemma zero_duration_panics_witness :
  GetVestedCoins Sample.zeroDuration 101 = Err DivisionByZero
  /\ GetVestingCoins Sample.zeroDuration 101 = Err DivisionByZero
  /\ SpendableCoins Sample.zeroDuration 101 = Err DivisionByZero
  /\ TrackDelegation 101 [atom 1] Sample.zeroDuration
     = Panic DivisionByZero Sample.zeroDuration.
Proof.
  apply (zero_duration_panics Sample.zeroDuration 101 [atom 1]).
  - reflexivity.
  - vm_compute. reflexivity.
Defined.

(** X6 at the fresh account, at block time 50. *)
Lemma SpendableCoins_returns_iff_witness :
  ((exists spendable, SpendableCoins Scenario.fresh 50 = Ok spendable)
   <-> coveredVesting Scenario.fresh [atom 50])
  /\ (~ coveredVesting Scenario.fresh [atom 50] ->
      SpendableCoins Scenario.fresh 50 = Err NegativeCoinAmount).
Proof.
  apply (SpendableCoins_returns_iff Scenario.fresh 50 [atom 50]).
  - reflexivity.
  - vm_compute. reflexivity.
Defined.

(** X7 at 100 atom vesting from 10 to 100, at block time 5. *)
Lemma fresh_account_spends_nothing_until_startTime_witness :
  SpendableCoins (NewContinuousVestingAccount [] [atom 100] 10 100) 5 = Ok [].
Proof.
  apply (fresh_account_spends_nothing_until_startTime [] [atom 100] 10 100 5).
  - reflexivity.
  - vm_compute. discriminate.
Defined.

(** X8 at the account with 2 atom delegated vesting and 10 atom delegated
    free. *)
Lemma all_spendable_at_endTime_witness :
  SpendableCoins Scenario.partlyDelegated (cvaEndTime Scenario.partlyDelegated)
  = Ok (cvaGetCoins Scenario.partlyDelegated).
Proof.
  apply (all_spendable_at_endTime Scenario.partlyDelegated).
  - repeat split.
  - reflexivity.
  - fits.
  - vm_compute. reflexivity.
Defined.

(** X9 at the fresh account, between the block times 25 and 50. *)
Lemma SpendableCoins_nondecreasing_witness :
  exists spendable2,
    SpendableCoins Scenario.fresh 50 = Ok spendable2
    /\ sdk.AmountOf [atom 25] "atom" <= sdk.AmountOf spendable2 "atom".
Proof.
  apply (SpendableCoins_nondecreasing Scenario.fresh 25 50 [atom 25] "atom").
  - reflexivity.
  - reflexivity.
  - fits.
  - fits.
  - vm_compute. reflexivity.
  - vm_compute. discriminate.
  - vm_compute. discriminate.
  - vm_compute. reflexivity.
Defined.

(** X10 at the fresh account, at block time 50, receiving 7 atom. *)
Lemma received_coins_are_spendable_witness :
  exists spendable spendable',
    SpendableCoins Scenario.fresh 50 = Ok spendable
    /\ SpendableCoins
         (assignCoins Scenario.fresh
            (sdk.Plus (cvaGetCoins Scenario.fresh) [atom 7])) 50
       = Ok spendable'
    /\ forall d,
         sdk.AmountOf spendable' d
         = sdk.AmountOf spendable d + sdk.AmountOf [atom 7] d.
Proof.
  apply (received_coins_are_spendable Scenario.fresh 50 [atom 50] [atom 7]).
  - reflexivity.
  - reflexivity.
  - vm_compute. reflexivity.
  - by_denomination.
Defined.



(** X14 at the fresh account: 40 atom delegated at its end time. *)
Lemma TrackDelegation_at_endTime_is_free_witness :
  exists cva',
    TrackDelegation (cvaEndTime Scenario.fresh) [atom 40] Scenario.fresh
    = Done tt cva'
    /\ delegatedVesting cva' = delegatedVesting Scenario.fresh
    /\ cvaDelegatedFree cva'
       = sdk.Plus (cvaDelegatedFree Scenario.fresh) [atom 40].
Proof.
  apply (TrackDelegation_at_endTime_is_free Scenario.fresh [atom 40]).
  - repeat split.
  - reflexivity.
  - fits.
  - vm_compute. reflexivity.
  - reflexivity.
  - by_denomination.
Defined.

(** X15 at the account with 10 atom delegated free and 2 atom delegated
    vesting: 11 atom undelegated. *)
Lemma TrackUndelegation_drains_free_first_witness :
  exists cva',
    TrackUndelegation [atom 11] Scenario.partlyDelegated = Done tt cva'
    /\ sdk.IsValid (cvaDelegatedFree cva') = true
    /\ sdk.IsValid (delegatedVesting cva') = true
    /\ forall d,
         let x := freePart
                    (sdk.AmountOf (cvaDelegatedFree Scenario.partlyDelegated) d)
                    (sdk.AmountOf [atom 11] d) in
         sdk.AmountOf (cvaDelegatedFree cva') d
         = sdk.AmountOf (cvaDelegatedFree Scenario.partlyDelegated) d - x
         /\ sdk.AmountOf (delegatedVesting cva') d
            = sdk.AmountOf (delegatedVesting Scenario.partlyDelegated) d
              - (sdk.AmountOf [atom 11] d - x).
Proof.
  apply (TrackUndelegation_drains_free_first Scenario.partlyDelegated
           [atom 11]).
  - reflexivity.
  - reflexivity.
  - reflexivity.
  - by_denomination.
Defined.

(** X16 at the fresh account: 5 atom undelegated. *)
Lemma TrackUndelegation_without_delegations_panics_witness :
  TrackUndelegation [atom 5] Scenario.fresh
  = Panic NegativeResult Scenario.fresh.
Proof.
  apply (TrackUndelegation_without_delegations_panics Scenario.fresh
           [atom 5]).
  - reflexivity.
  - reflexivity.
  - reflexivity.
  - discriminate.
Defined.

(** X17 at the fresh account, at block time 50 with 50 atom vesting:
    60 atom delegated, of which 50 atom as vesting. *)
Lemma TrackDelegation_lowers_spendable_by_free_part_witness :
  exists cva' spendable spendable',
    TrackDelegation 50 [atom 60] Scenario.fresh = Done tt cva'
    /\ SpendableCoins Scenario.fresh 50 = Ok spendable
    /\ SpendableCoins cva' 50 = Ok spendable'
    /\ forall d,
         sdk.AmountOf spendable' d
         = sdk.AmountOf spendable d
           - only (sdk.Denom (atom 60))
               (sdk.Amount (atom 60)
                - vestingPart (sdk.AmountOf [atom 50] (sdk.Denom (atom 60)))
                    (sdk.AmountOf (delegatedVesting Scenario.fresh)
                       (sdk.Denom (atom 60)))
                    (sdk.Amount (atom 60))) d.
Proof.
  apply (TrackDelegation_lowers_spendable_by_free_part Scenario.fresh 50
           [atom 50] (atom 60)).
  - repeat split.
  - vm_compute. reflexivity.
  - unfold coveredVesting. by_denomination.
  - vm_compute. reflexivity.
  - vm_compute. discriminate.
Defined.

(** X19 at an account without address: three calls of other setters. *)
Lemma only_SetCoins_changes_coins_witness :
  GetCoins
    (setterCalls Sample.noAddress
       [CallSetSequence 1; CallSetAddress [Byte.x01]; CallSetPubKey None])
  = GetCoins Sample.noAddress
  /\ GetCoins
       (setterCalls Sample.noAddress
          [CallSetCoins [atom 5]; CallSetSequence 1;
           CallSetAddress [Byte.x01]; CallSetPubKey None])
     = [atom 5].
Proof.
  apply (only_SetCoins_changes_coins Sample.noAddress [atom 5]
           [CallSetSequence 1; CallSetAddress [Byte.x01]; CallSetPubKey None]).
  intros c [<-|[<-|[<-|[]]]] x; discriminate.
Defined.

(** X21 at the space where nothing is modified and nothing decodes. *)
Lemma EndBlock_nothing_modified_witness :
  consensus.EndBlock Sample.untouched = Some consensus.zeroParams.
Proof.
  apply (EndBlockFacts.EndBlock_nothing_modified Sample.untouched).
  intros key. reflexivity.
Defined.

(** X22 at two spaces that differ under the keys that were not modified. *)
Lemma EndBlock_reads_modified_keys_only_witness :
  consensus.EndBlock Sample.gasOnly = consensus.EndBlock Sample.gasOnly'.
Proof.
  apply (EndBlockFacts.EndBlock_reads_modified_keys_only Sample.gasOnly
           Sample.gasOnly').
  - intros key. reflexivity.
  - intros key. destruct key; simpl; intros H;
      first [reflexivity | discriminate H].
Defined.
